(** * GTFS Poznan realtime backend: the refresh pipeline of [app/__init__.py]

    A shallow embedding of the data store, the caching fetcher, the static
    loader, the realtime decoding steps, the fusion loop and the read
    endpoints, followed by the properties of the pipeline.

    Conventions of the embedding.
    - Python exceptions do not roll anything back, so the pipeline runs in a
      state monad whose state survives a raised exception.
    - Wall-clock readings ([time.time()], [os.path.getmtime]) are exact
      integers of clock ticks, and the clock stands still during a run: time
      passes between runs ([elapse]). Coordinates are IEEE binary64 values
      that are only carried around, never computed with.
    - The library calls whose behaviour is fixed outside the repository
      (zip extraction, the CSV reader, the protobuf decoder, [float()],
      [int()], the conversion of an [int] to a [float]) are the fields of the
      class [Libraries].
    - A value that may be Python's [None] is an [option]: the cell of a row
      that [csv.DictReader] filled for a short line, the key of a dict that
      was indexed with such a cell. *)

From stdpp Require Import gmap strings list sorting.
From Stdlib Require Import ZArith Floats Strings.Ascii Strings.Byte.

Open Scope string_scope.
Open Scope Z_scope.

Abbreviation bytes := (list Byte.byte).
#[global] Instance byte_eq_dec : EqDecision Byte.byte := Byte.byte_eq_dec.

(** ** Paths and URLs (module level constants) *)

Definition CACHE_DIR : string := "cache".
Definition os_path_join (a b : string) : string := a +:+ "/" +:+ b.
Definition GTFS_DIR : string := os_path_join CACHE_DIR "gtfs".
Definition VEHICLE_POSITIONS_FILE : string := os_path_join CACHE_DIR "vehicle_positions.pb".
Definition TRIP_UPDATES_FILE : string := os_path_join CACHE_DIR "trip_updates.pb".
Definition GTFS_ZIP_FILE : string := os_path_join CACHE_DIR "ZTMPoznanGTFS.zip".

Definition GTFS_ZIP_URL : string :=
  "https://www.ztm.poznan.pl/pl/dla-deweloperow/getGTFSFile".
Definition VEHICLE_POSITIONS_URL : string :=
  "https://www.ztm.poznan.pl/pl/dla-deweloperow/getGtfsRtFile?file=vehicle_positions.pb".
Definition TRIP_UPDATES_URL : string :=
  "https://www.ztm.poznan.pl/pl/dla-deweloperow/getGtfsRtFile?file=trip_updates.pb".

(** ** The response models and the data store *)

Record Position := { latitude : float; longitude : float }.

Record ShapePoint := { lat : float; lon : float; seq : Z }.

Record VehicleData := {
  vehicle_id : string;
  route_id : string;
  trip_id : string;
  position : Position;
  delay_seconds : option Z;
  shape_id : option string;
  shape_points : list (gmap string float)
}.

(** A row of a table, as [csv.DictReader] yields it: every column of the
    header is a key; the cell is [None] where the line was too short. *)
Abbreviation row := (gmap string (option string)).

Record GTFSDataStore := {
  shapes_dict : gmap (option string) (list ShapePoint);
  trips : list row;
  trip_shape_map : gmap (option string) (option string);
  trip_delays : gmap string Z;
  vehicle_positions : list VehicleData;
  last_updated : option Z
}.

(** [GTFSDataStore.__init__] *)
Definition data_store_init : GTFSDataStore :=
  {| shapes_dict := ∅; trips := []; trip_shape_map := ∅; trip_delays := ∅;
     vehicle_positions := []; last_updated := None |}.

(** ** GTFS-realtime messages, as the generated protobuf classes expose them.
    A sub-message or scalar tested with [HasField] is an [option]; every
    other scalar carries its protobuf default when unset. *)

Module TripDescriptor.
Record t := { trip_id : string; route_id : string }.
End TripDescriptor.

Module VehicleDescriptor.
Record t := { id : string }.
End VehicleDescriptor.

Module VehiclePosition.
Record t := {
  trip : TripDescriptor.t;
  vehicle : VehicleDescriptor.t;
  position : Position
}.
End VehiclePosition.

Module StopTimeEvent.
Record t := { delay : option Z }.
End StopTimeEvent.

Module StopTimeUpdate.
Record t := {
  arrival : option StopTimeEvent.t;
  departure : option StopTimeEvent.t
}.
End StopTimeUpdate.

Module TripUpdate.
Record t := {
  trip : TripDescriptor.t;
  stop_time_update : list StopTimeUpdate.t
}.
End TripUpdate.

Module FeedEntity.
Record t := {
  trip_update : option TripUpdate.t;
  vehicle : option VehiclePosition.t
}.
End FeedEntity.

Module FeedMessage.
Record t := { entity : list FeedEntity.t }.
End FeedMessage.

(** ** Exceptions *)

(** The [detail] of the [HTTPException]s the module raises, one constructor
    per raise site. *)
Inductive Detail :=
  | DownloadError (url : string)
  | CsvNotFound (filepath : string)
  | CsvLoadError (filepath : string)
  | FeedNotFound (filepath : string)
  | FeedParseError (filepath : string)
  | BadZipDetail
  | UnzipError
  | UnexpectedError
  | NoVehicleData.

(** The exceptions met in the module. [TypeError] is what [float(None)]
    and [int(None)] raise; [ValidationError] is pydantic refusing the
    arguments of a model. *)
Inductive exn :=
  | HTTPException (status_code : Z) (detail : Detail)
  | KeyError (key : string)
  | ValueError (arg : string)
  | TypeError
  | ValidationError
  | FileNotFoundError (filepath : string)
  | BadZipFile
  | LibraryError (origin : string).

Inductive result (A : Type) :=
  | Ok (a : A)
  | Raise (e : exn).
Arguments Ok {A} a.
Arguments Raise {A} e.

(** ** The world outside the process: cache directory, clock, network *)

Record File := { content : bytes; mtime : Z }.

Inductive HttpResult :=
  | RequestFailed
  | Response (status_code : Z) (body : bytes).

(** [fs]: the files under the cache directory, by path; [now]: the reading
    of the clock; [net]: what a GET of a URL comes back with; [requests_log]:
    the URLs retrieved so far, oldest first. *)
Record World := {
  fs : gmap string File;
  now : Z;
  net : string → HttpResult;
  requests_log : list string
}.

(** What [zipfile.ZipFile(..).extractall] did with an archive: the members
    it wrote, and how it ended. *)
Inductive UnzipEnd := ExtractedAll | RaisedBadZipFile | RaisedOther.

(** The library calls; [None] stands for the call raising.
    [csv_DictReader] is the body of the [with] of [load_csv_dict]: the
    reader and the cleaning of the keys, which raises on a line longer than
    the header. [float_of_int] is the conversion pydantic applies to an
    [int] where a [float] is declared; it fails on an [int] too large for a
    [float]. *)
Class Libraries := {
  zip_extractall : bytes → list (string * bytes) * UnzipEnd;
  csv_DictReader : bytes → option (list row);
  ParseFromString : bytes → option FeedMessage.t;
  float_of_str : string → option float;
  int_of_str : string → option Z;
  float_of_int : Z → option float
}.

(** ** The monad of the pipeline: state that outlives exceptions *)

Record State := {
  world : World;
  store : GTFSDataStore;
  (** every value the global [data_store] went through, latest first *)
  observed : list GTFSDataStore
}.

Definition M (A : Type) : Type := State → result A * State.

Definition ret {A} (a : A) : M A := λ st, (Ok a, st).
Definition bind {A B} (m : M A) (k : A → M B) : M B :=
  λ st, match m st with
        | (Ok a, st') => k a st'
        | (Raise e, st') => (Raise e, st')
        end.
Definition raise {A} (e : exn) : M A := λ st, (Raise e, st).
(** [try: m except Exception as e: h e] *)
Definition try_except {A} (m : M A) (h : exn → M A) : M A :=
  λ st, match m st with
        | (Ok a, st') => (Ok a, st')
        | (Raise e, st') => h e st'
        end.

Definition result_bind {A B} (r : result A) (k : A → result B) : result B :=
  match r with
  | Ok a => k a
  | Raise e => Raise e
  end.

Declare Scope M_scope.
Delimit Scope M_scope with M.
Notation "x ← y ; z" := (bind y (λ x, z))
  (at level 20, y at level 100, z at level 200, only parsing) : M_scope.
Notation "y ;; z" := (bind y (λ _, z))
  (at level 100, z at level 200, only parsing, right associativity) : M_scope.
(** Computations on local variables only: they may raise, they touch no
    state. *)
Notation "x ⇐ y ; z" := (result_bind y (λ x, z))
  (at level 20, y at level 100, z at level 200, only parsing) : M_scope.
Open Scope M_scope.

Definition lift {A} (r : result A) : M A := λ st, (r, st).

(** Changes of the world and of the state around it. *)
Definition world_write (filepath : string) (data : bytes) (w : World) : World :=
  {| fs := <[filepath := {| content := data; mtime := now w |}]> (fs w);
     now := now w; net := net w; requests_log := requests_log w |}.

Definition world_remove (filepath : string) (w : World) : World :=
  {| fs := delete filepath (fs w);
     now := now w; net := net w; requests_log := requests_log w |}.

Definition world_log (url : string) (w : World) : World :=
  {| fs := fs w; now := now w; net := net w;
     requests_log := (requests_log w ++ [url])%list |}.

Definition world_elapse (d : Z) (w : World) : World :=
  {| fs := fs w; now := now w + d; net := net w; requests_log := requests_log w |}.

Definition on_world (f : World → World) (st : State) : State :=
  {| world := f (world st); store := store st; observed := observed st |}.

(** The state [d] ticks later, nothing else having happened. *)
Definition elapse (d : Z) (st : State) : State := on_world (world_elapse d) st.

Definition get_world : M World := λ st, (Ok (world st), st).
Definition modify_world (f : World → World) : M unit := λ st, (Ok tt, on_world f st).
Definition get_store : M GTFSDataStore := λ st, (Ok (store st), st).
(** An assignment to an attribute of [data_store]. *)
Definition put_store (s : GTFSDataStore) : M unit :=
  λ st, (Ok tt, {| world := world st; store := s; observed := s :: observed st |}).

(** ** Operating-system and network primitives *)

Definition os_path_exists (filepath : string) : M bool :=
  w ← get_world; ret (bool_decide (is_Some (fs w !! filepath))).

Definition os_path_getmtime (filepath : string) : M Z :=
  w ← get_world;
  match fs w !! filepath with
  | Some f => ret (mtime f)
  | None => raise (FileNotFoundError filepath)
  end.

Definition time_time : M Z := w ← get_world; ret (now w).

Definition write_file (filepath : string) (data : bytes) : M unit :=
  modify_world (world_write filepath data).

Definition read_file (filepath : string) : M bytes :=
  w ← get_world;
  match fs w !! filepath with
  | Some f => ret (content f)
  | None => raise (FileNotFoundError filepath)
  end.

(** [os.remove], called on a file that was just opened. *)
Definition os_remove (filepath : string) : M unit :=
  modify_world (world_remove filepath).

(** [requests.get(url, timeout=30)]: one network retrieval, logged. *)
Definition requests_get (url : string) : M HttpResult :=
  w ← get_world;
  modify_world (world_log url);;
  ret (net w url).

(** [response.raise_for_status()] raises for 4xx and 5xx. *)
Definition is_http_error (status_code : Z) : bool :=
  bool_decide (400 ≤ status_code < 600).

(** ** [fetch_file] *)

Definition fetch_file (url filepath : string) (max_age_seconds : Z) : M unit :=
  present ← os_path_exists filepath;
  fresh ← (if present : bool
            then t ← time_time;
                 m ← os_path_getmtime filepath;
                 let age := t - m in
                 ret (bool_decide (age < max_age_seconds))
            else ret false);
  if fresh : bool then ret tt
  else
    response ← requests_get url;
    match response with
    | RequestFailed => raise (HTTPException 500 (DownloadError url))
    | Response status_code body =>
        if is_http_error status_code
        then raise (HTTPException 500 (DownloadError url))
        else write_file filepath body
    end.

(** ** [load_csv_dict] and [load_feed] *)

Section Pipeline.
Context `{Libraries}.

Definition load_csv_dict (filepath : string) : M (list row) :=
  try_except
    (data ← read_file filepath;
     match csv_DictReader data with
     | Some rows => ret rows
     | None => raise (LibraryError "csv")
     end)
    (λ e, match e with
          | FileNotFoundError _ => raise (HTTPException 500 (CsvNotFound filepath))
          | _ => raise (HTTPException 500 (CsvLoadError filepath))
          end).

Definition load_feed (filepath : string) : M FeedMessage.t :=
  try_except
    (data ← read_file filepath;
     match ParseFromString data with
     | Some feed => ret feed
     | None => raise (LibraryError "protobuf")
     end)
    (λ e, match e with
          | FileNotFoundError _ => raise (HTTPException 500 (FeedNotFound filepath))
          | _ => raise (HTTPException 500 (FeedParseError filepath))
          end).

(** ** The steps of [fetch_and_process_data] *)

(** [with zipfile.ZipFile(GTFS_ZIP_FILE) as z: z.extractall(GTFS_DIR)] and
    its two handlers. *)
Definition write_members (dir : string) (members : list (string * bytes)) : M unit :=
  foldr (λ '(name, data) rest, write_file (os_path_join dir name) data;; rest)
        (ret tt) members.

Definition extract_gtfs_zip : M unit :=
  try_except
    (data ← read_file GTFS_ZIP_FILE;
     let '(members, how) := zip_extractall data in
     write_members GTFS_DIR members;;
     match how with
     | ExtractedAll => ret tt
     | RaisedBadZipFile => raise BadZipFile
     | RaisedOther => raise (LibraryError "zipfile")
     end)
    (λ e, match e with
          | BadZipFile =>
              os_remove GTFS_ZIP_FILE;;
              raise (HTTPException 500 BadZipDetail)
          | _ => raise (HTTPException 500 UnzipError)
          end).

(** [d[key]], [float(v)], [int(v)]; the last two raise [TypeError] on
    [None]. *)
Definition getitem (d : row) (key : string) : result (option string) :=
  match d !! key with
  | Some v => Ok v
  | None => Raise (KeyError key)
  end.

Definition py_float (v : option string) : result float :=
  match v with
  | Some s =>
      match float_of_str s with
      | Some x => Ok x
      | None => Raise (ValueError s)
      end
  | None => Raise TypeError
  end.

Definition py_int (v : option string) : result Z :=
  match v with
  | Some s =>
      match int_of_str s with
      | Some n => Ok n
      | None => Raise (ValueError s)
      end
  | None => Raise TypeError
  end.

(** A [for] loop over a list whose body may raise. *)
Fixpoint for_each {A B} (body : B → A → result B) (l : list A) (acc : B) : result B :=
  match l with
  | [] => Ok acc
  | x :: l' => acc' ⇐ body acc x; for_each body l' acc'
  end.

(** The body of the loop that groups the rows of [shapes.txt] by shape. *)
Definition group_shape_row (shapes_dict : gmap (option string) (list ShapePoint))
    (shape : row) : result (gmap (option string) (list ShapePoint)) :=
  shape_id ⇐ getitem shape "shape_id";
  let shapes_dict :=
    if decide (is_Some (shapes_dict !! shape_id)) then shapes_dict
    else <[shape_id := []]> shapes_dict in
  s_lat ⇐ getitem shape "shape_pt_lat";
  v_lat ⇐ py_float s_lat;
  s_lon ⇐ getitem shape "shape_pt_lon";
  v_lon ⇐ py_float s_lon;
  s_seq ⇐ getitem shape "shape_pt_sequence";
  v_seq ⇐ py_int s_seq;
  Ok (alter (λ pts, (pts ++ [{| lat := v_lat; lon := v_lon; seq := v_seq |}])%list)
            shape_id shapes_dict).

(** [list.sort(key=lambda x: x['seq'])], a stable sort. *)
Fixpoint insert_by_seq (p : ShapePoint) (l : list ShapePoint) : list ShapePoint :=
  match l with
  | [] => [p]
  | q :: l' => if bool_decide (seq p ≤ seq q) then p :: q :: l'
               else q :: insert_by_seq p l'
  end.

Definition sort_by_seq (l : list ShapePoint) : list ShapePoint :=
  foldr insert_by_seq [] l.

(** The grouping loop, the sort of every list, and the [ShapePoint] made
    of every point, which gets two floats and an int and keeps them. *)
Definition build_shapes_dict (shapes : list row)
    : result (gmap (option string) (list ShapePoint)) :=
  shapes_dict ⇐ for_each group_shape_row shapes
                 (∅ : gmap (option string) (list ShapePoint));
  Ok (sort_by_seq <$> shapes_dict).

(** [{trip['trip_id']: trip['shape_id'] for trip in trips}] *)
Definition build_trip_shape_map (trips : list row)
    : result (gmap (option string) (option string)) :=
  for_each (λ acc trip,
              k ⇐ getitem trip "trip_id";
              v ⇐ getitem trip "shape_id";
              Ok (<[k := v]> acc))
           trips (∅ : gmap (option string) (option string)).

(** The body of the loop over [trip_update_feed.entity]. *)
Definition record_trip_delay (trip_delays : gmap string Z) (entity : FeedEntity.t)
    : gmap string Z :=
  match FeedEntity.trip_update entity with
  | Some trip_update =>
      let trip_id := TripDescriptor.trip_id (TripUpdate.trip trip_update) in
      match TripUpdate.stop_time_update trip_update with
      | stu0 :: _ =>
          match StopTimeUpdate.arrival stu0 ≫= StopTimeEvent.delay with
          | Some delay => <[trip_id := delay]> trip_delays
          | None =>
              match StopTimeUpdate.departure stu0 ≫= StopTimeEvent.delay with
              | Some delay => <[trip_id := delay]> trip_delays
              | None => trip_delays
              end
          end
      | [] => trip_delays
      end
  | None => trip_delays
  end.

Definition build_trip_delays (feed : FeedMessage.t) : gmap string Z :=
  foldl record_trip_delay ∅ (FeedMessage.entity feed).

(** [d.get(key, default)] *)
Definition dict_get `{Countable K} {V} (d : gmap K V) (key : K) (dflt : V) : V :=
  default dflt (d !! key).

(** A list comprehension whose element may raise. *)
Fixpoint traverse {A B} (f : A → result B) (l : list A) : result (list B) :=
  match l with
  | [] => Ok []
  | x :: l' => y ⇐ f x; ys ⇐ traverse f l'; Ok (y :: ys)
  end.

(** [{'lat': p.lat, 'lon': p.lon, 'seq': p.seq}] once [VehicleData] has
    validated it as a [Dict[str, float]]: the sequence number becomes a
    float, or the validation raises. *)
Definition shape_point_dict (p : ShapePoint) : result (gmap string float) :=
  match float_of_int (seq p) with
  | Some v_seq => Ok (<["lat" := lat p]> (<["lon" := lon p]> {["seq" := v_seq]}))
  | None => Raise ValidationError
  end.

(** The body of the loop over [vehicle_feed.entity], up to the
    [VehicleData(...)] it appends. *)
Definition fuse_vehicle (ds : GTFSDataStore) (vehicle : VehiclePosition.t)
    : result VehicleData :=
  let trip_id := TripDescriptor.trip_id (VehiclePosition.trip vehicle) in
  let route_id := TripDescriptor.route_id (VehiclePosition.trip vehicle) in
  let vehicle_id := VehicleDescriptor.id (VehiclePosition.vehicle vehicle) in
  let position := VehiclePosition.position vehicle in
  let delay := trip_delays ds !! trip_id in
  let shape_id := dict_get (trip_shape_map ds) (Some trip_id) None in
  let shape_points_raw := dict_get (shapes_dict ds) shape_id [] in
  shape_points_list ⇐ traverse shape_point_dict shape_points_raw;
  Ok {| vehicle_id := vehicle_id;
        route_id := route_id;
        trip_id := trip_id;
        position := {| latitude := latitude position; longitude := longitude position |};
        delay_seconds := delay;
        shape_id := shape_id;
        shape_points := shape_points_list |}.

Definition append_vehicle (ds : GTFSDataStore)
    (current_vehicle_positions : list VehicleData) (entity : FeedEntity.t)
    : result (list VehicleData) :=
  match FeedEntity.vehicle entity with
  | Some vehicle =>
      record ⇐ fuse_vehicle ds vehicle;
      Ok (current_vehicle_positions ++ [record])%list
  | None => Ok current_vehicle_positions
  end.

Definition process_vehicles (ds : GTFSDataStore) (feed : FeedMessage.t)
    : result (list VehicleData) :=
  for_each (append_vehicle ds) (FeedMessage.entity feed) [].

(** Assignments to the attributes of [data_store]: the object with one
    attribute replaced, then the assignment itself. *)
Definition with_shapes_dict (v : gmap (option string) (list ShapePoint)) (ds : GTFSDataStore) : GTFSDataStore :=
  {| shapes_dict := v; trips := trips ds;
     trip_shape_map := trip_shape_map ds; trip_delays := trip_delays ds;
     vehicle_positions := vehicle_positions ds; last_updated := last_updated ds |}.

Definition with_trips (v : list row) (ds : GTFSDataStore) : GTFSDataStore :=
  {| shapes_dict := shapes_dict ds; trips := v;
     trip_shape_map := trip_shape_map ds; trip_delays := trip_delays ds;
     vehicle_positions := vehicle_positions ds; last_updated := last_updated ds |}.

Definition with_trip_shape_map (v : gmap (option string) (option string)) (ds : GTFSDataStore) : GTFSDataStore :=
  {| shapes_dict := shapes_dict ds; trips := trips ds;
     trip_shape_map := v; trip_delays := trip_delays ds;
     vehicle_positions := vehicle_positions ds; last_updated := last_updated ds |}.

Definition with_trip_delays (v : gmap string Z) (ds : GTFSDataStore) : GTFSDataStore :=
  {| shapes_dict := shapes_dict ds; trips := trips ds;
     trip_shape_map := trip_shape_map ds; trip_delays := v;
     vehicle_positions := vehicle_positions ds; last_updated := last_updated ds |}.

Definition with_vehicle_positions (v : list VehicleData) (ds : GTFSDataStore) : GTFSDataStore :=
  {| shapes_dict := shapes_dict ds; trips := trips ds;
     trip_shape_map := trip_shape_map ds; trip_delays := trip_delays ds;
     vehicle_positions := v; last_updated := last_updated ds |}.

Definition with_last_updated (v : option Z) (ds : GTFSDataStore) : GTFSDataStore :=
  {| shapes_dict := shapes_dict ds; trips := trips ds;
     trip_shape_map := trip_shape_map ds; trip_delays := trip_delays ds;
     vehicle_positions := vehicle_positions ds; last_updated := v |}.

Definition set_shapes_dict (v : gmap (option string) (list ShapePoint)) : M unit :=
  ds ← get_store; put_store (with_shapes_dict v ds).

Definition set_trips (v : list row) : M unit :=
  ds ← get_store; put_store (with_trips v ds).

Definition set_trip_shape_map (v : gmap (option string) (option string)) : M unit :=
  ds ← get_store; put_store (with_trip_shape_map v ds).

Definition set_trip_delays (v : gmap string Z) : M unit :=
  ds ← get_store; put_store (with_trip_delays v ds).

Definition set_vehicle_positions (v : list VehicleData) : M unit :=
  ds ← get_store; put_store (with_vehicle_positions v ds).

Definition set_last_updated (v : Z) : M unit :=
  ds ← get_store; put_store (with_last_updated (Some v) ds).

(** ** [fetch_and_process_data] *)

(** The body of the outer [try]. *)
Definition refresh_body : M unit :=
  fetch_file VEHICLE_POSITIONS_URL VEHICLE_POSITIONS_FILE 10;;
  fetch_file TRIP_UPDATES_URL TRIP_UPDATES_FILE 10;;
  fetch_file GTFS_ZIP_URL GTFS_ZIP_FILE 86400;;
  extract_gtfs_zip;;
  shapes ← load_csv_dict (os_path_join GTFS_DIR "shapes.txt");
  trips ← load_csv_dict (os_path_join GTFS_DIR "trips.txt");
  shapes_dict ← lift (build_shapes_dict shapes);
  set_shapes_dict shapes_dict;;
  set_trips trips;;
  trip_shape_map ← lift (build_trip_shape_map trips);
  set_trip_shape_map trip_shape_map;;
  vehicle_feed ← load_feed VEHICLE_POSITIONS_FILE;
  trip_update_feed ← load_feed TRIP_UPDATES_FILE;
  set_trip_delays (build_trip_delays trip_update_feed);;
  ds ← get_store;
  current_vehicle_positions ← lift (process_vehicles ds vehicle_feed);
  set_vehicle_positions current_vehicle_positions;;
  t ← time_time;
  set_last_updated t.

Definition fetch_and_process_data : M unit :=
  try_except refresh_body
    (λ e, match e with
          | HTTPException status_code detail =>
              raise (HTTPException status_code detail)
          | _ => raise (HTTPException 500 UnexpectedError)
          end).

(** ** The read endpoints *)

Definition get_vehicle_positions : M (list VehicleData) :=
  ds ← get_store;
  match vehicle_positions ds with
  | [] => raise (HTTPException 404 NoVehicleData)
  | _ :: _ => ret (vehicle_positions ds)
  end.

(** [if data_store.last_updated:] is false for [None] and for a zero
    reading. *)
Definition get_data_status : M (option Z) :=
  ds ← get_store;
  match last_updated ds with
  | Some t => if bool_decide (t = 0) then ret None else ret (Some t)
  | None => ret None
  end.

(** ** The life of the process

    The store starts as [GTFSDataStore()]; every refresh (the one of
    [startup_event] and those queued by [update_data]) runs
    [fetch_and_process_data] on the store it finds, in whatever state the
    cache directory, the clock and the network are by then. The flag tells
    whether some refresh has returned without raising. *)

Definition start (w : World) (ds : GTFSDataStore) : State :=
  {| world := w; store := ds; observed := [] |}.

Inductive served : bool → GTFSDataStore → Prop :=
  | served_init : served false data_store_init
  | served_refresh_ok b ds w st' :
      served b ds →
      fetch_and_process_data (start w ds) = (Ok tt, st') →
      served true (store st')
  | served_refresh_failed b ds w e st' :
      served b ds →
      fetch_and_process_data (start w ds) = (Raise e, st') →
      served b (store st').

End Pipeline.

(** ** A small instance of the libraries and of the world

    Enough of an archive, two tables and two feeds to run the pipeline on
    concrete data. *)

Module Sample.

Definition shape_row (shape_id : option string) (s_lat s_lon s_seq : string) : row :=
  <["shape_pt_lat" := Some s_lat]> (<["shape_pt_lon" := Some s_lon]>
    (<["shape_pt_sequence" := Some s_seq]> {["shape_id" := shape_id]})).

Definition trip_row (trip_id shape_id : string) : row :=
  <["route_id" := Some "16"]> (<["trip_id" := Some trip_id]> {["shape_id" := Some shape_id]}).

(** [shapes_txt] has two points of one shape, out of order. In
    [short_shapes_txt] the column [shape_id] comes last and the second line
    stops before it. In [long_shapes_txt] a sequence number is [10^400]. *)
Definition shapes_txt : bytes := [x53].
Definition short_shapes_txt : bytes := [x53; x01].
Definition long_shapes_txt : bytes := [x53; x02].
Definition trips_txt : bytes := [x54].
Definition good_zip : bytes := [x50; x4b].
Definition short_row_zip : bytes := [x50; x4b; x01].
Definition long_seq_zip : bytes := [x50; x4b; x02].
Definition truncated_zip : bytes := [x50].
Definition one_vehicle_pb : bytes := [x01].
Definition one_delay_pb : bytes := [x02].
Definition two_vehicle_pb : bytes := [x03].
Definition no_entity_pb : bytes := [].
Definition garbage : bytes := [xff].

Definition tram : VehiclePosition.t :=
  {| VehiclePosition.trip := {| TripDescriptor.trip_id := "t1";
                                TripDescriptor.route_id := "16" |};
     VehiclePosition.vehicle := {| VehicleDescriptor.id := "v1" |};
     VehiclePosition.position := {| latitude := 52.25%float; longitude := 16.75%float |} |}.

(** A vehicle on a trip that [trips_txt] does not list. *)
Definition bus : VehiclePosition.t :=
  {| VehiclePosition.trip := {| TripDescriptor.trip_id := "t9";
                                TripDescriptor.route_id := "74" |};
     VehiclePosition.vehicle := {| VehicleDescriptor.id := "v2" |};
     VehiclePosition.position := {| latitude := 52.5%float; longitude := 16.5%float |} |}.

Definition vehicle_entity (vehicle : VehiclePosition.t) : FeedEntity.t :=
  {| FeedEntity.trip_update := None; FeedEntity.vehicle := Some vehicle |}.

Definition departure_only (trip_id : string) (d : Z) : FeedEntity.t :=
  {| FeedEntity.trip_update := Some
       {| TripUpdate.trip := {| TripDescriptor.trip_id := trip_id;
                                TripDescriptor.route_id := "16" |};
          TripUpdate.stop_time_update :=
            [ {| StopTimeUpdate.arrival := None;
                 StopTimeUpdate.departure := Some {| StopTimeEvent.delay := Some d |} |} ] |};
     FeedEntity.vehicle := None |}.

Fixpoint zeros (n : nat) : string :=
  match n with
  | O => ""
  | S n' => String "0"%char (zeros n')
  end.

(** Decimal digits, with an optional sign. *)
Fixpoint digits (acc : Z) (s : string) : option Z :=
  match s with
  | EmptyString => Some acc
  | String c s' =>
      let d := Z.of_nat (nat_of_ascii c) - 48 in
      if bool_decide (0 ≤ d ≤ 9) then digits (10 * acc + d) s' else None
  end.

Definition decimal (s : string) : option Z :=
  match s with
  | EmptyString => None
  | String c s' =>
      if decide (c = "-"%char)
      then (if decide (s' = "") then None else Z.opp <$> digits 0 s')
      else digits 0 s
  end.

(** The nearest double, to even on a tie; none when it would be infinite. *)
Definition nearest_float (n : Z) : option float :=
  let f := SF2Prim (SpecFloat.binary_normalize FloatOps.prec FloatOps.emax n 0 false) in
  if PrimFloat.is_infinity f then None else Some f.

#[local] Instance libs : Libraries := {|
  zip_extractall data :=
    if decide (data = good_zip)
    then ([("shapes.txt", shapes_txt); ("trips.txt", trips_txt)], ExtractedAll)
    else if decide (data = short_row_zip)
    then ([("shapes.txt", short_shapes_txt); ("trips.txt", trips_txt)], ExtractedAll)
    else if decide (data = long_seq_zip)
    then ([("shapes.txt", long_shapes_txt); ("trips.txt", trips_txt)], ExtractedAll)
    else if decide (data = truncated_zip) then ([], RaisedOther)
    else ([], RaisedBadZipFile);
  csv_DictReader data :=
    if decide (data = shapes_txt)
    then Some [shape_row (Some "s1") "52.25" "16.75" "2";
               shape_row (Some "s1") "52.5" "16.5" "1"]
    else if decide (data = short_shapes_txt)
    then Some [shape_row (Some "s1") "52.25" "16.75" "1";
               shape_row None "52.5" "16.5" "1"]
    else if decide (data = long_shapes_txt)
    then Some [shape_row (Some "s1") "52.25" "16.75" ("1" +:+ zeros 400)]
    else if decide (data = trips_txt) then Some [trip_row "t1" "s1"]
    else None;
  ParseFromString data :=
    if decide (data = no_entity_pb) then Some {| FeedMessage.entity := [] |}
    else if decide (data = one_vehicle_pb)
    then Some {| FeedMessage.entity := [vehicle_entity tram] |}
    else if decide (data = one_delay_pb)
    then Some {| FeedMessage.entity := [departure_only "t1" 42] |}
    else if decide (data = two_vehicle_pb)
    then Some {| FeedMessage.entity := [vehicle_entity bus; vehicle_entity tram] |}
    else None;
  float_of_str s :=
    if decide (s = "52.25") then Some 52.25%float
    else if decide (s = "52.5") then Some 52.5%float
    else if decide (s = "16.5") then Some 16.5%float
    else if decide (s = "16.75") then Some 16.75%float
    else None;
  int_of_str := decimal;
  float_of_int := nearest_float
|}.

(** A network that serves the three resources. *)
Definition serve (vehicles updates archive : bytes) (url : string) : HttpResult :=
  if decide (url = VEHICLE_POSITIONS_URL) then Response 200 vehicles
  else if decide (url = TRIP_UPDATES_URL) then Response 200 updates
  else if decide (url = GTFS_ZIP_URL) then Response 200 archive
  else Response 404 [].

Definition offline (url : string) : HttpResult := RequestFailed.

Definition empty_cache (t : Z) (n : string → HttpResult) : World :=
  {| fs := ∅; now := t; net := n; requests_log := [] |}.

End Sample.

(** * The vocabulary of the properties *)

(** ** Order of the points of a shape *)

Definition by_seq (p q : ShapePoint) : Prop := seq p ≤ seq q.

(** ** What a computation leaves alone

    [preserves R m]: the state after [m], returned or raised, is related by
    [R] to the state before. *)

Definition preserves {A} (R : State → State → Prop) (m : M A) : Prop :=
  ∀ st, R st (m st).2.

(** The relations that are preserved. *)
Definition same_store (st st' : State) : Prop :=
  store st' = store st ∧ observed st' = observed st.

Definition same_requests (st st' : State) : Prop :=
  requests_log (world st') = requests_log (world st).

Definition more_requests (st st' : State) : Prop :=
  requests_log (world st) `prefix_of` requests_log (world st').

(** The file at [filepath] is as it was. *)
Definition same_file (filepath : string) (st st' : State) : Prop :=
  fs (world st') !! filepath = fs (world st) !! filepath.

(** ** The fetcher, the exceptions *)

(** The test at the head of [fetch_file]. *)
Definition is_fresh (filepath : string) (max_age_seconds : Z) (w : World) : bool :=
  match fs w !! filepath with
  | Some f => bool_decide (now w - mtime f < max_age_seconds)
  | None => false
  end.

Definition is_http (e : exn) : Prop :=
  match e with
  | HTTPException _ _ => True
  | _ => False
  end.

(** The details raised before the first assignment to the store, and those
    raised by [load_feed]. *)
Definition early_detail (d : Detail) : Prop :=
  match d with
  | DownloadError _ | BadZipDetail | UnzipError | CsvNotFound _ | CsvLoadError _ => True
  | _ => False
  end.

Definition feed_detail (d : Detail) : Prop :=
  match d with
  | FeedNotFound _ | FeedParseError _ => True
  | _ => False
  end.

(** What the outer handlers make of the way the body ended. *)
Definition reported (r : result unit) : result unit :=
  match r with
  | Ok a => Ok a
  | Raise (HTTPException status_code detail) => Raise (HTTPException status_code detail)
  | Raise _ => Raise (HTTPException 500 UnexpectedError)
  end.

Section Outcomes.
Context `{Libraries}.

(** What can be raised before the first assignment to the store, with the
    state of the cached archive after an extraction that failed. *)
Inductive early_failure (st' : State) : exn → Prop :=
  | download_failed url :
      early_failure st' (HTTPException 500 (DownloadError url))
  | archive_bad :
      fs (world st') !! GTFS_ZIP_FILE = None →
      early_failure st' (HTTPException 500 BadZipDetail)
  | archive_not_extracted :
      is_Some (fs (world st') !! GTFS_ZIP_FILE) →
      early_failure st' (HTTPException 500 UnzipError)
  | table_missing filepath :
      early_failure st' (HTTPException 500 (CsvNotFound filepath))
  | table_unreadable filepath :
      early_failure st' (HTTPException 500 (CsvLoadError filepath))
  | shapes_malformed e :
      ¬ is_http e → early_failure st' e.

(** The five ways the body of the outer [try] can end, with the values the
    store went through. *)
Inductive refresh_outcome (st : State) : result unit → State → Prop :=
  | failed_untouched e st' :
      store st' = store st →
      observed st' = observed st →
      early_failure st' e →
      refresh_outcome st (Raise e) st'
  | failed_after_static e st' shapes trips index :
      let s1 := with_shapes_dict index (store st) in
      let s2 := with_trips trips s1 in
      build_shapes_dict shapes = Ok index →
      store st' = s2 →
      observed st' = s2 :: s1 :: observed st →
      ¬ is_http e →
      refresh_outcome st (Raise e) st'
  | failed_at_feeds d st' shapes trips index trip_map :
      let s1 := with_shapes_dict index (store st) in
      let s2 := with_trips trips s1 in
      let s3 := with_trip_shape_map trip_map s2 in
      build_shapes_dict shapes = Ok index →
      build_trip_shape_map trips = Ok trip_map →
      store st' = s3 →
      observed st' = s3 :: s2 :: s1 :: observed st →
      feed_detail d →
      refresh_outcome st (Raise (HTTPException 500 d)) st'
  | failed_at_fusion e st' shapes trips index trip_map vehicle_feed trip_update_feed :
      let s1 := with_shapes_dict index (store st) in
      let s2 := with_trips trips s1 in
      let s3 := with_trip_shape_map trip_map s2 in
      let s4 := with_trip_delays (build_trip_delays trip_update_feed) s3 in
      build_shapes_dict shapes = Ok index →
      build_trip_shape_map trips = Ok trip_map →
      process_vehicles s4 vehicle_feed = Raise e →
      store st' = s4 →
      observed st' = s4 :: s3 :: s2 :: s1 :: observed st →
      ¬ is_http e →
      refresh_outcome st (Raise e) st'
  | refreshed st' shapes trips index trip_map f vehicle_feed trip_update_feed records :
      let s1 := with_shapes_dict index (store st) in
      let s2 := with_trips trips s1 in
      let s3 := with_trip_shape_map trip_map s2 in
      let s4 := with_trip_delays (build_trip_delays trip_update_feed) s3 in
      let s5 := with_vehicle_positions records s4 in
      let s6 := with_last_updated (Some (now (world st'))) s5 in
      build_shapes_dict shapes = Ok index →
      build_trip_shape_map trips = Ok trip_map →
      fs (world st') !! VEHICLE_POSITIONS_FILE = Some f →
      ParseFromString (content f) = Some vehicle_feed →
      process_vehicles s4 vehicle_feed = Ok records →
      store st' = s6 →
      observed st' = s6 :: s5 :: s4 :: s3 :: s2 :: s1 :: observed st →
      refresh_outcome st (Ok tt) st'.

(** What [fetch_and_process_data] does once the three fetches are done. *)
Definition after_fetches : M unit :=
  extract_gtfs_zip;;
  shapes ← load_csv_dict (os_path_join GTFS_DIR "shapes.txt");
  trips ← load_csv_dict (os_path_join GTFS_DIR "trips.txt");
  shapes_dict ← lift (build_shapes_dict shapes);
  set_shapes_dict shapes_dict;;
  set_trips trips;;
  trip_shape_map ← lift (build_trip_shape_map trips);
  set_trip_shape_map trip_shape_map;;
  vehicle_feed ← load_feed VEHICLE_POSITIONS_FILE;
  trip_update_feed ← load_feed TRIP_UPDATES_FILE;
  set_trip_delays (build_trip_delays trip_update_feed);;
  ds ← get_store;
  current_vehicle_positions ← lift (process_vehicles ds vehicle_feed);
  set_vehicle_positions current_vehicle_positions;;
  t ← time_time;
  set_last_updated t.

End Outcomes.

(** ** Further vocabulary: the cache slot, the rows of a shape, the paths
    of a refresh *)

(** The cache slot holds no file, or one at least [max_age_seconds] old. *)
Definition needs_download (filepath : string) (max_age_seconds : Z) (w : World) : Prop :=
  fs w !! filepath = None ∨
  ∃ f, fs w !! filepath = Some f ∧ max_age_seconds ≤ now w - mtime f.

(** The cache slot holds a file younger than [max_age_seconds]. *)
Definition fresh_in_cache (filepath : string) (max_age_seconds : Z) (w : World) : Prop :=
  ∃ f, fs w !! filepath = Some f ∧ now w - mtime f < max_age_seconds.

(** The paths a refresh works on: the three cache files and what lies in
    [GTFS_DIR]. *)
Definition own_path (filepath : string) : Prop :=
  filepath = VEHICLE_POSITIONS_FILE ∨ filepath = TRIP_UPDATES_FILE ∨
  filepath = GTFS_ZIP_FILE ∨ ∃ name, filepath = os_path_join GTFS_DIR name.

(** Every other file is as it was. *)
Definition same_elsewhere (st st' : State) : Prop :=
  ∀ filepath, ¬ own_path filepath →
    fs (world st') !! filepath = fs (world st) !! filepath.

Section Rows.
Context `{Libraries}.

(** The string in a cell of a row, when the column is there and the line
    reached it. *)
Definition cell (r : row) (key : string) : option string :=
  match r !! key with
  | Some (Some v) => Some v
  | _ => None
  end.

(** The point a row of [shapes.txt] stands for, when its three columns are
    there and parse. *)
Definition row_point (r : row) : option ShapePoint :=
  match cell r "shape_pt_lat" ≫= float_of_str,
        cell r "shape_pt_lon" ≫= float_of_str,
        cell r "shape_pt_sequence" ≫= int_of_str with
  | Some v_lat, Some v_lon, Some v_seq =>
      Some {| lat := v_lat; lon := v_lon; seq := v_seq |}
  | _, _, _ => None
  end.

(** What a row of [shapes.txt] can make the grouping loop raise: a column
    the header lacks, a coordinate the line stopped before, a coordinate
    that does not parse. *)
Inductive row_raises (r : row) : exn → Prop :=
  | column_missing key :
      key ∈ ["shape_id"; "shape_pt_lat"; "shape_pt_lon"; "shape_pt_sequence"] →
      r !! key = None →
      row_raises r (KeyError key)
  | cell_missing key :
      key ∈ ["shape_pt_lat"; "shape_pt_lon"; "shape_pt_sequence"] →
      r !! key = Some None →
      row_raises r TypeError
  | float_malformed key s :
      key ∈ ["shape_pt_lat"; "shape_pt_lon"] →
      r !! key = Some (Some s) →
      float_of_str s = None →
      row_raises r (ValueError s)
  | int_malformed s :
      r !! "shape_pt_sequence" = Some (Some s) →
      int_of_str s = None →
      row_raises r (ValueError s).

(** The rows of one shape, in file order; the shape of a line that stops
    before the column [shape_id] is [None]. *)
Definition rows_of_shape (shape_id : option string) (shapes : list row) : list row :=
  filter (λ r, r !! "shape_id" = Some shape_id) shapes.

(** The points the fusion finds for a vehicle: those the shape index holds
    under what the trip map gives for its trip. *)
Definition shape_key (ds : GTFSDataStore) (vehicle : VehiclePosition.t) : option string :=
  dict_get (trip_shape_map ds)
    (Some (TripDescriptor.trip_id (VehiclePosition.trip vehicle))) None.

Definition points_of (ds : GTFSDataStore) (vehicle : VehiclePosition.t) : list ShapePoint :=
  dict_get (shapes_dict ds) (shape_key ds vehicle) [].

(** Every sequence number of the list has a float. *)
Definition representable (pts : list ShapePoint) : Prop :=
  Forall (λ p, is_Some (float_of_int (seq p))) pts.

(** The body of the dict comprehension that builds the trip map. *)
Definition map_trip (acc : gmap (option string) (option string)) (trip : row)
    : result (gmap (option string) (option string)) :=
  k ⇐ getitem trip "trip_id";
  v ⇐ getitem trip "shape_id";
  Ok (<[k := v]> acc).

End Rows.

(** * Properties of the static loader, the delay map and the fusion loop *)

Section Tables.
Context `{Libraries}.

Lemma insert_by_seq_Forall (P : ShapePoint → Prop) p l :
  P p → Forall P l → Forall P (insert_by_seq p l).
Proof.
  intros Hp Hl. induction Hl as [|q l Hq Hl IH]; simpl.
  - by constructor.
  - case_bool_decide; repeat constructor; done.
Qed.

Lemma insert_by_seq_sorted p l :
  StronglySorted by_seq l → StronglySorted by_seq (insert_by_seq p l).
Proof.
  induction 1 as [|q l Hl IH Hq]; simpl.
  - repeat constructor.
  - case_bool_decide as Hle.
    + constructor; [by constructor|].
      constructor; [done|].
      eapply Forall_impl; [exact Hq|]. unfold by_seq. intros r Hr. lia.
    + constructor; [done|].
      apply insert_by_seq_Forall; [|done]. unfold by_seq. lia.
Qed.

Lemma sort_by_seq_sorted l : StronglySorted by_seq (sort_by_seq l).
Proof.
  induction l as [|p l IH]; simpl; [constructor|].
  by apply insert_by_seq_sorted.
Qed.

Lemma insert_by_seq_perm p l : insert_by_seq p l ≡ₚ p :: l.
Proof.
  induction l as [|q l IH]; simpl; [done|].
  case_bool_decide; [done|]. rewrite IH. apply Permutation_swap.
Qed.

(** Sorting loses and invents no point. *)
Lemma sort_by_seq_perm l : sort_by_seq l ≡ₚ l.
Proof.
  induction l as [|p l IH]; simpl; [done|].
  by rewrite insert_by_seq_perm, IH.
Qed.

Lemma sorted_lookup_le (l : list ShapePoint) (i j : nat) p q :
  StronglySorted by_seq l →
  l !! i = Some p → l !! j = Some q → (i ≤ j)%nat → seq p ≤ seq q.
Proof.
  intros Hs. revert i j. induction Hs as [|r l Hl IH Hr]; intros i j Hi Hj Hij.
  - by rewrite lookup_nil in Hi.
  - destruct i as [|i], j as [|j]; simplify_eq/=.
    + lia.
    + rewrite Forall_forall in Hr. apply Hr.
      apply list_elem_of_lookup. eauto.
    + lia.
    + eapply IH; eauto. lia.
Qed.

Lemma build_shapes_dict_sorted shapes index shape_id pts :
  build_shapes_dict shapes = Ok index →
  index !! shape_id = Some pts →
  StronglySorted by_seq pts.
Proof.
  unfold build_shapes_dict. intros Hb Hidx.
  destruct (for_each group_shape_row shapes ∅) as [grouped|e]; simplify_eq/=.
  rewrite lookup_fmap in Hidx.
  destruct (grouped !! shape_id) as [raw|]; simplify_eq/=.
  apply sort_by_seq_sorted.
Qed.

(** C6: once the static loader has built the shape index, the sequence
    numbers of the points of every shape of the index are non-decreasing in
    list order. *)
Theorem shape_points_non_decreasing
    (shapes : list row) (index : gmap (option string) (list ShapePoint))
    (shape_id : option string) (pts : list ShapePoint) (i j : nat) (p q : ShapePoint) :
  build_shapes_dict shapes = Ok index →
  index !! shape_id = Some pts →
  pts !! i = Some p → pts !! j = Some q → (i ≤ j)%nat →
  seq p ≤ seq q.
Proof.
  intros Hb Hidx Hi Hj Hij.
  eapply sorted_lookup_le; eauto using build_shapes_dict_sorted.
Qed.

(** ** The delay map *)

(** C4: the delay an entity records for its trip comes from the first
    stop-time update alone: its arrival delay when there is one, else its
    departure delay when there is one, else nothing is recorded; the later
    stop-time updates [rest] play no part. An entity with no trip update,
    or whose trip update has no stop-time update, records nothing. *)
Theorem trip_delay_from_first_stop
    (trip_delays : gmap string Z) (entity : FeedEntity.t) :
  let no_delay (ev : option StopTimeEvent.t) :=
    ev = None ∨ ∃ e, ev = Some e ∧ StopTimeEvent.delay e = None in
  (FeedEntity.trip_update entity = None →
     record_trip_delay trip_delays entity = trip_delays) ∧
  (∀ trip_update, FeedEntity.trip_update entity = Some trip_update →
     let trip_id := TripDescriptor.trip_id (TripUpdate.trip trip_update) in
     (TripUpdate.stop_time_update trip_update = [] →
        record_trip_delay trip_delays entity = trip_delays) ∧
     (∀ stu0 rest, TripUpdate.stop_time_update trip_update = stu0 :: rest →
        (∀ a d, StopTimeUpdate.arrival stu0 = Some a → StopTimeEvent.delay a = Some d →
           record_trip_delay trip_delays entity = <[trip_id := d]> trip_delays ∧
           record_trip_delay trip_delays entity !! trip_id = Some d) ∧
        (∀ b d, no_delay (StopTimeUpdate.arrival stu0) →
           StopTimeUpdate.departure stu0 = Some b → StopTimeEvent.delay b = Some d →
           record_trip_delay trip_delays entity = <[trip_id := d]> trip_delays ∧
           record_trip_delay trip_delays entity !! trip_id = Some d) ∧
        (no_delay (StopTimeUpdate.arrival stu0) →
         no_delay (StopTimeUpdate.departure stu0) →
           record_trip_delay trip_delays entity = trip_delays))).
Proof.
  intros no_delay. split.
  { unfold record_trip_delay. by intros ->. }
  intros trip_update Htu trip_id. split.
  { unfold record_trip_delay. rewrite Htu. by intros ->. }
  intros stu0 rest Hstu. unfold record_trip_delay. rewrite Htu, Hstu. fold trip_id.
  assert (Hno : ∀ ev, no_delay ev → ev ≫= StopTimeEvent.delay = None).
  { intros ev [->|(e & -> & He)]; simpl; done. }
  split; [|split].
  - intros a d -> Hd. simpl. rewrite Hd. by rewrite lookup_insert_eq.
  - intros b d Ha -> Hd. rewrite (Hno _ Ha). simpl. rewrite Hd.
    by rewrite lookup_insert_eq.
  - intros Ha Hb. by rewrite (Hno _ Ha), (Hno _ Hb).
Qed.

Lemma trip_delay_from_first_stop_witness :
  build_trip_delays {| FeedMessage.entity := [Sample.departure_only "t1" 42] |}
    !! "t1" = Some 42.
Proof.
  unfold build_trip_delays. simpl.
  pose proof (trip_delay_from_first_stop ∅ (Sample.departure_only "t1" 42))
    as (_ & Hsome).
  destruct (Hsome _ eq_refl) as (_ & Hfirst).
  destruct (Hfirst _ [] eq_refl) as (_ & Hdep & _).
  simpl in Hdep.
  exact (proj2 (Hdep _ 42 (or_introl eq_refl) eq_refl eq_refl)).
Defined.

(** Over a whole feed the entities are handled in feed order, each one
    overwriting what an earlier one recorded for the same trip. *)
Lemma build_trip_delays_snoc (entities : list FeedEntity.t) (entity : FeedEntity.t) :
  build_trip_delays {| FeedMessage.entity := entities ++ [entity] |} =
  record_trip_delay (build_trip_delays {| FeedMessage.entity := entities |}) entity.
Proof. unfold build_trip_delays. simpl. by rewrite foldl_snoc. Qed.

End Tables.

Lemma shape_points_non_decreasing_witness :
  let shapes := [Sample.shape_row (Some "s1") "52.25" "16.75" "2";
                 Sample.shape_row (Some "s1") "52.5" "16.5" "1"] in
  let p := {| lat := 52.5; lon := 16.5; seq := 1 |} in
  let q := {| lat := 52.25; lon := 16.75; seq := 2 |} in
  build_shapes_dict (H := Sample.libs) shapes = Ok {[Some "s1" := [p; q]]} ∧
  seq p ≤ seq q.
Proof.
  intros shapes p q.
  assert (Hbuilt : build_shapes_dict (H := Sample.libs) shapes = Ok {[Some "s1" := [p; q]]})
    by (vm_compute; reflexivity).
  split; [exact Hbuilt|].
  apply (shape_points_non_decreasing (H := Sample.libs)
           shapes {[Some "s1" := [p; q]]} (Some "s1") [p; q] 0 1 p q);
    [exact Hbuilt|apply lookup_singleton_eq|reflexivity|reflexivity|lia].
Defined.

(** ** Comprehensions and loops that may raise *)

Lemma traverse_Ok {A B} (f : A → result B) (l : list A) (l' : list B) :
  traverse f l = Ok l' ↔ Forall2 (λ x y, f x = Ok y) l l'.
Proof.
  revert l'. induction l as [|x l IH]; intros l'; simpl.
  - split; [intros; simplify_eq; constructor|by inversion 1].
  - split.
    + destruct (f x) as [y|e] eqn:Hx; simpl; [|done].
      destruct (traverse f l) as [ys|e] eqn:Hl; simpl; [|done].
      intros; simplify_eq. constructor; [done|]. by apply IH.
    + inversion 1 as [|? y ? ys Hx Hl]; simplify_eq.
      rewrite Hx. simpl. apply IH in Hl. by rewrite Hl.
Qed.

(** A comprehension raises what its first failing element raises. *)
Lemma traverse_Raise {A B} (f : A → result B) (l : list A) (e : exn) :
  traverse f l = Raise e ↔
  ∃ l1 x l2, l = (l1 ++ x :: l2)%list ∧
             Forall (λ x, ∃ y, f x = Ok y) l1 ∧ f x = Raise e.
Proof.
  induction l as [|x l IH]; simpl.
  - split; [done|]. intros (l1 & y & l2 & Hl & _). by destruct l1.
  - split.
    + destruct (f x) as [y|e'] eqn:Hx; simpl.
      * destruct (traverse f l) as [ys|e'] eqn:Hl; simpl; [done|].
        intros; simplify_eq.
        destruct (proj1 IH eq_refl) as (l1 & z & l2 & -> & Hall & Hz).
        exists (x :: l1), z, l2. split_and!; [done|constructor; eauto|done].
      * intros; simplify_eq. exists [], x, l. by split_and!.
    + intros ([|x' l1] & z & l2 & Heq & Hall & Hz); simplify_eq/=.
      * by rewrite Hz.
      * apply Forall_cons in Hall as [[y Hy] Hall]. rewrite Hy. simpl.
        assert (traverse f (l1 ++ z :: l2) = Raise e) as -> by (apply IH; eauto 6).
        done.
Qed.

Lemma traverse_nil_inv {A B} (f : A → result B) (l : list A) :
  traverse f l = Ok [] → l = [].
Proof. intros Hl%traverse_Ok. by inversion Hl. Qed.

Section Fusion.
Context `{Libraries}.

(** The only thing the construction of a record can raise. *)
Lemma shape_point_dict_raise p e :
  shape_point_dict p = Raise e → e = ValidationError ∧ float_of_int (seq p) = None.
Proof.
  unfold shape_point_dict. destruct (float_of_int (seq p)); intros; by simplify_eq.
Qed.

Lemma fuse_vehicle_raise ds vehicle e :
  fuse_vehicle ds vehicle = Raise e →
  e = ValidationError ∧
  ∃ p, p ∈ dict_get (shapes_dict ds)
             (dict_get (trip_shape_map ds)
                (Some (TripDescriptor.trip_id (VehiclePosition.trip vehicle))) None) []
       ∧ float_of_int (seq p) = None.
Proof.
  unfold fuse_vehicle.
  destruct (traverse shape_point_dict _) as [pts|e'] eqn:Hpts; simpl; [done|].
  intros; simplify_eq.
  apply traverse_Raise in Hpts as (l1 & p & l2 & Hl & _ & Hp).
  apply shape_point_dict_raise in Hp as [-> Hp].
  split; [done|]. exists p. split; [|done].
  rewrite Hl. apply elem_of_app. right. by left.
Qed.

(** A record is built exactly when every sequence number of the shape of
    the vehicle has a float. *)
Lemma fuse_vehicle_ok ds vehicle record :
  fuse_vehicle ds vehicle = Ok record ↔
  let trip_id := TripDescriptor.trip_id (VehiclePosition.trip vehicle) in
  let sid := dict_get (trip_shape_map ds) (Some trip_id) None in
  ∃ dicts,
    traverse shape_point_dict (dict_get (shapes_dict ds) sid []) = Ok dicts ∧
    record =
      {| vehicle_id := VehicleDescriptor.id (VehiclePosition.vehicle vehicle);
         route_id := TripDescriptor.route_id (VehiclePosition.trip vehicle);
         trip_id := trip_id;
         position :=
           {| latitude := latitude (VehiclePosition.position vehicle);
              longitude := longitude (VehiclePosition.position vehicle) |};
         delay_seconds := trip_delays ds !! trip_id;
         shape_id := sid;
         shape_points := dicts |}.
Proof.
  unfold fuse_vehicle. simpl.
  destruct (traverse shape_point_dict _) as [pts|e'] eqn:Hpts; simpl.
  - split; [intros; simplify_eq; eauto|]. by intros (dicts & ? & ->); simplify_eq.
  - split; [done|]. by intros (dicts & ? & _).
Qed.

Lemma for_each_append_vehicle ds (entities : list FeedEntity.t) (acc : list VehicleData) :
  for_each (append_vehicle ds) entities acc =
  (records ⇐ traverse (fuse_vehicle ds) (omap FeedEntity.vehicle entities);
   Ok (acc ++ records)%list).
Proof.
  revert acc. induction entities as [|e entities IH]; intros acc; simpl.
  - by rewrite app_nil_r.
  - unfold append_vehicle at 1.
    destruct (FeedEntity.vehicle e) as [vehicle|]; simpl; [|apply IH].
    destruct (fuse_vehicle ds vehicle) as [record|e']; simpl; [|done].
    rewrite IH.
    destruct (traverse _ _) as [records|e']; simpl; [|done].
    by rewrite <- app_assoc.
Qed.

(** The loop fuses the entities that carry a vehicle, in feed order, and
    stops at the first record that cannot be built. *)
Lemma process_vehicles_spec ds (feed : FeedMessage.t) :
  process_vehicles ds feed =
  traverse (fuse_vehicle ds) (omap FeedEntity.vehicle (FeedMessage.entity feed)).
Proof.
  unfold process_vehicles. rewrite for_each_append_vehicle.
  by destruct (traverse _ _).
Qed.

Lemma process_vehicles_length ds (feed : FeedMessage.t) records :
  process_vehicles ds feed = Ok records →
  length records = length (omap FeedEntity.vehicle (FeedMessage.entity feed)).
Proof.
  rewrite process_vehicles_spec. intros Hr%traverse_Ok.
  symmetry. by eapply Forall2_length.
Qed.

(** The record of the [k]-th entity sits at the position given by the number
    of vehicle entities before it. *)
Lemma process_vehicles_lookup ds (feed : FeedMessage.t) records (k : nat) entity vehicle :
  process_vehicles ds feed = Ok records →
  FeedMessage.entity feed !! k = Some entity →
  FeedEntity.vehicle entity = Some vehicle →
  ∃ record,
    fuse_vehicle ds vehicle = Ok record ∧
    records !! length (omap FeedEntity.vehicle (take k (FeedMessage.entity feed)))
    = Some record.
Proof.
  rewrite process_vehicles_spec. intros Hr%traverse_Ok Hk Hv.
  assert (omap FeedEntity.vehicle (FeedMessage.entity feed)
            !! length (omap FeedEntity.vehicle (take k (FeedMessage.entity feed)))
          = Some vehicle) as Hat.
  { clear Hr. revert k Hk.
    induction (FeedMessage.entity feed) as [|e entities IH]; intros k Hk.
    - by rewrite lookup_nil in Hk.
    - destruct k as [|k]; simplify_eq/=.
      + by rewrite Hv.
      + destruct (FeedEntity.vehicle e); simpl; by apply IH. }
  destruct (Forall2_lookup_l _ _ _ _ _ Hr Hat) as (record & Hrec & Hfuse). eauto.
Qed.

Lemma process_vehicles_raise ds (feed : FeedMessage.t) e :
  process_vehicles ds feed = Raise e →
  e = ValidationError ∧
  ∃ entity vehicle, entity ∈ FeedMessage.entity feed ∧
    FeedEntity.vehicle entity = Some vehicle ∧
    fuse_vehicle ds vehicle = Raise ValidationError.
Proof.
  rewrite process_vehicles_spec.
  intros (l1 & vehicle & l2 & Hl & _ & Hv)%traverse_Raise.
  pose proof (fuse_vehicle_raise _ _ _ Hv) as [-> _]. split; [done|].
  assert (vehicle ∈ omap FeedEntity.vehicle (FeedMessage.entity feed)) as Hin.
  { rewrite Hl. apply elem_of_app. right. by left. }
  apply list_elem_of_omap in Hin as (entity & Hin & Hent). eauto.
Qed.

Lemma process_vehicles_not_http ds feed e :
  process_vehicles ds feed = Raise e → ¬ is_http e.
Proof. intros [-> _]%process_vehicles_raise. simpl. tauto. Qed.

(** A vehicle on a trip the trip map does not list gets no shape, provided
    no line of [shapes.txt] stopped before its [shape_id]. *)
Lemma fuse_vehicle_unmapped ds vehicle :
  trip_shape_map ds !! Some (TripDescriptor.trip_id (VehiclePosition.trip vehicle)) = None →
  shapes_dict ds !! None = None →
  ∃ record, fuse_vehicle ds vehicle = Ok record ∧
    shape_id record = None ∧ shape_points record = [].
Proof.
  intros Hmap Hnone. eexists. split.
  { unfold fuse_vehicle, dict_get. rewrite Hmap. simpl. rewrite Hnone. done. }
  done.
Qed.

(** C10: a vehicle entity whose trip maps to a shape id that the shape
    index does not hold is fused into a record without raising, with that
    shape id and no shape points; when the loop returns, the record is in
    its list at the place of the entity. The lookups of the fusion fall back
    on a default: what the fusion of a vehicle can raise is never a
    [KeyError], only the validation of a record whose shape has a sequence
    number with no float. *)
Theorem unknown_shape_gets_id_without_points
    (ds : GTFSDataStore) (vehicle : VehiclePosition.t) (sid : option string) :
  trip_shape_map ds !! Some (TripDescriptor.trip_id (VehiclePosition.trip vehicle))
    = Some sid →
  shapes_dict ds !! sid = None →
  (∃ record : VehicleData,
     fuse_vehicle ds vehicle = Ok record ∧
     vehicle_id record = VehicleDescriptor.id (VehiclePosition.vehicle vehicle) ∧
     trip_id record = TripDescriptor.trip_id (VehiclePosition.trip vehicle) ∧
     delay_seconds record =
       trip_delays ds !! TripDescriptor.trip_id (VehiclePosition.trip vehicle) ∧
     shape_id record = sid ∧
     shape_points record = [] ∧
     ∀ (feed : FeedMessage.t) (k : nat) (entity : FeedEntity.t) records,
       FeedMessage.entity feed !! k = Some entity →
       FeedEntity.vehicle entity = Some vehicle →
       process_vehicles ds feed = Ok records →
       records !! length (omap FeedEntity.vehicle (take k (FeedMessage.entity feed)))
       = Some record) ∧
  (∀ (other : VehiclePosition.t) (e : exn),
     fuse_vehicle ds other = Raise e → e = ValidationError).
Proof.
  intros Hmap Hshape. split.
  - eexists. split.
    { unfold fuse_vehicle, dict_get. rewrite Hmap. simpl. rewrite Hshape. done. }
    split_and!; [done..|].
    intros feed k entity records Hk Hv Hrecords.
    destruct (process_vehicles_lookup _ _ _ _ _ _ Hrecords Hk Hv)
      as (record & Hfuse & Hat).
    rewrite Hat. f_equal.
    unfold fuse_vehicle, dict_get in Hfuse. rewrite Hmap in Hfuse. simpl in Hfuse.
    rewrite Hshape in Hfuse. by simplify_eq/=.
  - intros other e He. by apply fuse_vehicle_raise in He as [-> _].
Qed.

End Fusion.

Lemma unknown_shape_gets_id_without_points_witness :
  let far := {| lat := 52.25; lon := 16.75; seq := 10 ^ 400 |} in
  let ds := with_trip_shape_map {[Some "t1" := Some "s9"; Some "t9" := Some "s1"]}
              (with_shapes_dict {[Some "s1" := [far]]} data_store_init) in
  let feed := {| FeedMessage.entity :=
                   [Sample.departure_only "t1" 42; Sample.vehicle_entity Sample.tram] |} in
  (∃ record : VehicleData,
     fuse_vehicle (H := Sample.libs) ds Sample.tram = Ok record ∧
     process_vehicles (H := Sample.libs) ds feed = Ok [record] ∧
     vehicle_id record = "v1" ∧
     shape_id record = Some "s9" ∧
     shape_points record = []) ∧
  fuse_vehicle (H := Sample.libs) ds Sample.bus = Raise ValidationError.
Proof.
  intros far ds feed.
  destruct (unknown_shape_gets_id_without_points (H := Sample.libs) ds Sample.tram
              (Some "s9") eq_refl eq_refl)
    as [(record & Hfuse & Hid & _ & _ & Hshape & Hpoints & Hat) Hraise].
  assert (Hbus : ∃ e, fuse_vehicle (H := Sample.libs) ds Sample.bus = Raise e)
    by (eexists; vm_compute; reflexivity).
  destruct Hbus as [e Hbus].
  split.
  - exists record. split_and!; [exact Hfuse| |exact Hid|exact Hshape|exact Hpoints].
    assert (Hrun : ∃ records, process_vehicles (H := Sample.libs) ds feed = Ok records
                              ∧ length records = 1%nat)
      by (eexists; split; vm_compute; reflexivity).
    destruct Hrun as (records & Hrun & Hlen).
    specialize (Hat feed 1%nat _ records eq_refl eq_refl Hrun).
    destruct records as [|r [|? ?]]; try discriminate Hlen.
    cbn in Hat. injection Hat as ->. exact Hrun.
  - rewrite Hbus. f_equal. exact (Hraise _ _ Hbus).
Defined.

(** C5 fails on a table the loader reads without error. In
    [Sample.short_shapes_txt] the column [shape_id] comes last and one line
    stops before it, so the shape index holds a point under [None]; the
    trip [t9] of [Sample.bus] is in no row of [trips.txt]. The refresh
    returns, and the record of the bus has no shape id but one shape
    point, the one of the short line. *)
Theorem unmapped_trip_gets_points_of_short_line :
  let w := Sample.empty_cache 1000
             (Sample.serve Sample.two_vehicle_pb Sample.one_delay_pb
                Sample.short_row_zip) in
  let out := fetch_and_process_data (H := Sample.libs) (start w data_store_init) in
  out.1 = Ok tt ∧
  trip_shape_map (store out.2) !! Some "t9" = None ∧
  shapes_dict (store out.2) !! None = Some [{| lat := 52.5; lon := 16.5; seq := 1 |}] ∧
  ∃ record rest,
    vehicle_positions (store out.2) = record :: rest ∧
    vehicle_id record = "v2" ∧
    trip_id record = "t9" ∧
    shape_id record = None ∧
    shape_points record = [<["lat" := 52.5%float]> (<["lon" := 16.5%float]>
                                                     {["seq" := 1%float]})].
Proof.
  intros w out.
  split_and!; [vm_compute; reflexivity..|].
  assert (Hlist : ∃ record rest, vehicle_positions (store out.2) = record :: rest)
    by (eexists _, _; vm_compute; reflexivity).
  destruct Hlist as (record & rest & Hlist). exists record, rest.
  split; [exact Hlist|].
  assert (Hfacts :
    match vehicle_positions (store out.2) with
    | record :: _ =>
        vehicle_id record = "v2" ∧ trip_id record = "t9" ∧ shape_id record = None ∧
        shape_points record = [<["lat" := 52.5%float]> (<["lon" := 16.5%float]>
                                                         {["seq" := 1%float]})]
    | [] => False
    end) by (vm_compute; repeat split).
  rewrite Hlist in Hfacts. exact Hfacts.
Qed.

(** * Reasoning about runs of the pipeline *)

Lemma bind_inv {A B} (m : M A) (k : A → M B) st r st' :
  bind m k st = (r, st') →
  (∃ a st1, m st = (Ok a, st1) ∧ k a st1 = (r, st')) ∨
  (∃ e, m st = (Raise e, st') ∧ r = Raise e).
Proof.
  unfold bind. destruct (m st) as [[a|e] st1]; intros Hk.
  - left. eauto.
  - right. exists e. by simplify_eq.
Qed.

Lemma try_except_inv {A} (m : M A) (h : exn → M A) st r st' :
  try_except m h st = (r, st') →
  (∃ a, m st = (Ok a, st') ∧ r = Ok a) ∨
  (∃ e st1, m st = (Raise e, st1) ∧ h e st1 = (r, st')).
Proof.
  unfold try_except. destruct (m st) as [[a|e] st1]; intros Hk.
  - left. exists a. by simplify_eq.
  - right. eauto.
Qed.

(** Splits a run of [x ← m; k] into the run of [m] and, when [m] returned,
    the run of [k]. *)
Tactic Notation "step" hyp(H) "as" ident(a) ident(st1) ident(E) :=
  let e := fresh "e" in
  apply bind_inv in H as [(a & st1 & E & H) | (e & E & ->)].

Section Preserves.
Context (R : State → State → Prop) (HR : PreOrder R).

Lemma preserves_ret {A} (a : A) : preserves R (ret a).
Proof. intros st. simpl. done. Qed.

Lemma preserves_raise {A} (e : exn) : preserves R (@raise A e).
Proof. intros st. simpl. done. Qed.

Lemma preserves_lift {A} (r : result A) : preserves R (lift r).
Proof. intros st. simpl. done. Qed.

Lemma preserves_get_world : preserves R get_world.
Proof. intros st. simpl. done. Qed.

Lemma preserves_get_store : preserves R get_store.
Proof. intros st. simpl. done. Qed.

Lemma preserves_bind {A B} (m : M A) (k : A → M B) :
  preserves R m → (∀ a, preserves R (k a)) → preserves R (bind m k).
Proof.
  intros Hm Hk st. unfold bind. specialize (Hm st).
  destruct (m st) as [[a|e] st1]; simpl in *; [|done].
  etrans; [exact Hm|]. apply Hk.
Qed.

Lemma preserves_try_except {A} (m : M A) (h : exn → M A) :
  preserves R m → (∀ e, preserves R (h e)) → preserves R (try_except m h).
Proof.
  intros Hm Hh st. unfold try_except. specialize (Hm st).
  destruct (m st) as [[a|e] st1]; simpl in *; [done|].
  etrans; [exact Hm|]. apply Hh.
Qed.

Lemma preserves_run {A} (m : M A) st r st' :
  preserves R m → m st = (r, st') → R st st'.
Proof. intros Hm Hrun. specialize (Hm st). by rewrite Hrun in Hm. Qed.

End Preserves.

Create HintDb frame discriminated.

(** Reduces [preserves R m] to the primitives of [m] that change the
    state; those are left to the hints of [frame]. *)
Ltac frame :=
  repeat first
    [ apply preserves_ret; [apply _]
    | apply preserves_raise; [apply _]
    | apply preserves_lift; [apply _]
    | apply preserves_get_world; [apply _]
    | apply preserves_get_store; [apply _]
    | apply preserves_bind; [apply _| |intros ?]
    | apply preserves_try_except; [apply _| |intros ?]
    | match goal with
      | |- preserves _ (match ?x with _ => _ end) => destruct x
      end
    | solve [auto with frame] ].

#[global] Instance same_store_preorder : PreOrder same_store.
Proof.
  split; [by intros st|].
  intros st1 st2 st3 [? ?] [? ?]. split; congruence.
Qed.

#[global] Instance same_requests_preorder : PreOrder same_requests.
Proof. split; [by intros st|]. intros st1 st2 st3 ? ?. unfold same_requests in *. congruence. Qed.

#[global] Instance more_requests_preorder : PreOrder more_requests.
Proof.
  split; [intros st; unfold more_requests; done|].
  intros st1 st2 st3 ? ?. unfold more_requests in *. by etrans.
Qed.

#[global] Instance same_file_preorder filepath : PreOrder (same_file filepath).
Proof. split; [by intros st|]. intros st1 st2 st3 ? ?. unfold same_file in *. congruence. Qed.

Lemma modify_world_same_store f : preserves same_store (modify_world f).
Proof. by intros st. Qed.

Lemma put_store_same_requests s : preserves same_requests (put_store s).
Proof. by intros st. Qed.

Lemma put_store_same_file filepath s : preserves (same_file filepath) (put_store s).
Proof. by intros st. Qed.

Lemma write_same_requests filepath data :
  preserves same_requests (modify_world (world_write filepath data)).
Proof. by intros st. Qed.

Lemma remove_same_requests filepath :
  preserves same_requests (modify_world (world_remove filepath)).
Proof. by intros st. Qed.

Lemma log_more_requests url : preserves more_requests (modify_world (world_log url)).
Proof. intros st. unfold more_requests. simpl. by apply prefix_app_r. Qed.

Lemma log_same_file filepath url :
  preserves (same_file filepath) (modify_world (world_log url)).
Proof. by intros st. Qed.

Lemma write_same_file filepath other data :
  other ≠ filepath →
  preserves (same_file filepath) (modify_world (world_write other data)).
Proof. intros Hne st. unfold same_file. simpl. by rewrite lookup_insert_ne. Qed.

Lemma same_requests_more {A} (m : M A) :
  preserves same_requests m → preserves more_requests m.
Proof. intros Hm st. specialize (Hm st). unfold same_requests, more_requests in *. by rewrite Hm. Qed.

#[global] Hint Resolve modify_world_same_store
  put_store_same_requests put_store_same_file write_same_requests
  remove_same_requests log_more_requests log_same_file : frame.

(** * The fetcher *)

Lemma fetch_file_run url filepath max_age_seconds st :
  fetch_file url filepath max_age_seconds st =
  if is_fresh filepath max_age_seconds (world st) then (Ok tt, st)
  else match net (world st) url with
       | RequestFailed =>
           (Raise (HTTPException 500 (DownloadError url)), on_world (world_log url) st)
       | Response status_code body =>
           if is_http_error status_code
           then (Raise (HTTPException 500 (DownloadError url)),
                 on_world (world_log url) st)
           else (Ok tt, on_world (world_write filepath body)
                          (on_world (world_log url) st))
       end.
Proof.
  unfold fetch_file, is_fresh, os_path_exists, os_path_getmtime, time_time,
    requests_get, write_file, bind, ret, get_world, modify_world, raise.
  destruct (fs (world st) !! filepath) as [f|] eqn:Hf.
  - rewrite bool_decide_eq_true_2 by (by eexists).
    cbn. rewrite Hf. cbn. case_bool_decide; [done|]. cbn.
    destruct (net (world st) url) as [|c b]; [done|]. by destruct (is_http_error c).
  - rewrite bool_decide_eq_false_2 by (intros [? ?]; done). cbn.
    destruct (net (world st) url) as [|c b]; [done|]. by destruct (is_http_error c).
Qed.

Lemma is_fresh_true filepath max_age_seconds w :
  is_fresh filepath max_age_seconds w = true ↔
  ∃ f, fs w !! filepath = Some f ∧ now w - mtime f < max_age_seconds.
Proof.
  unfold is_fresh. split.
  - destruct (fs w !! filepath) as [f|]; [|done].
    intros Hlt%bool_decide_eq_true. eauto.
  - intros (f & -> & Hlt). by apply bool_decide_eq_true.
Qed.

Lemma is_fresh_false filepath max_age_seconds w :
  is_fresh filepath max_age_seconds w = false ↔
  fs w !! filepath = None ∨
  ∃ f, fs w !! filepath = Some f ∧ max_age_seconds ≤ now w - mtime f.
Proof.
  unfold is_fresh. split.
  - destruct (fs w !! filepath) as [f|]; [|by left].
    intros Hlt%bool_decide_eq_false. right. exists f. split; [done|lia].
  - intros [->|(f & -> & Hle)]; [done|]. apply bool_decide_eq_false. lia.
Qed.

(** C7: [fetch_file] touches the cache path only when the file is missing
    or at least [max_age_seconds] old, and is a no-op otherwise; so when a
    call had to retrieve the file and did, a second call less than
    [max_age_seconds] later retrieves nothing: the two calls together make
    exactly one network retrieval. *)
Theorem fetch_file_cache_policy (url filepath : string) (max_age_seconds : Z) (st : State) :
  let absent_or_stale (w : World) :=
    fs w !! filepath = None ∨
    ∃ f, fs w !! filepath = Some f ∧ max_age_seconds ≤ now w - mtime f in
  (* a fresh file: nothing happens *)
  ((∃ f, fs (world st) !! filepath = Some f ∧
         now (world st) - mtime f < max_age_seconds) →
   fetch_file url filepath max_age_seconds st = (Ok tt, st)) ∧
  (* the cache changes only for a missing or stale file *)
  (∀ r st', fetch_file url filepath max_age_seconds st = (r, st') →
     fs (world st') ≠ fs (world st) → absent_or_stale (world st)) ∧
  (* two calls less than [max_age_seconds] apart *)
  (∀ st1 d,
     absent_or_stale (world st) →
     fetch_file url filepath max_age_seconds st = (Ok tt, st1) →
     d < max_age_seconds →
     requests_log (world st1) = (requests_log (world st) ++ [url])%list ∧
     fetch_file url filepath max_age_seconds (elapse d st1) = (Ok tt, elapse d st1)).
Proof.
  intros absent_or_stale. split; [|split].
  - intros Hfresh%is_fresh_true. by rewrite fetch_file_run, Hfresh.
  - intros r st' Hrun Hfs. apply is_fresh_false.
    rewrite fetch_file_run in Hrun.
    destruct (is_fresh filepath max_age_seconds (world st)); [|done].
    by simplify_eq.
  - intros st1 d Hstale%is_fresh_false Hrun Hd.
    rewrite fetch_file_run, Hstale in Hrun.
    destruct (net (world st) url) as [|c body]; [done|].
    destruct (is_http_error c); [done|]. simplify_eq. split; [done|].
    rewrite fetch_file_run.
    replace (is_fresh filepath max_age_seconds _) with true; [done|].
    symmetry. apply is_fresh_true. eexists. simpl.
    rewrite lookup_insert_eq. split; [done|]. simpl. lia.
Qed.
Lemma fetch_file_cache_policy_witness :
  let st := start (Sample.empty_cache 1000
                     (Sample.serve Sample.one_vehicle_pb Sample.one_delay_pb Sample.good_zip))
                  data_store_init in
  ∃ st1,
    fetch_file VEHICLE_POSITIONS_URL VEHICLE_POSITIONS_FILE 10 st = (Ok tt, st1) ∧
    requests_log (world st1) = [VEHICLE_POSITIONS_URL] ∧
    fetch_file VEHICLE_POSITIONS_URL VEHICLE_POSITIONS_FILE 10 (elapse 3 st1)
    = (Ok tt, elapse 3 st1).
Proof.
  intros st.
  destruct (fetch_file_cache_policy VEHICLE_POSITIONS_URL VEHICLE_POSITIONS_FILE 10 st)
    as (_ & _ & Htwice).
  eexists. split; [reflexivity|].
  apply (Htwice _ 3); [left; reflexivity|reflexivity|lia].
Defined.
(** * The steps of a refresh *)

Create HintDb pipeline.
#[global] Hint Unfold os_path_exists os_path_getmtime time_time write_file
  read_file os_remove requests_get fetch_file : pipeline.

Section Steps.
Context `{Libraries}.

Lemma write_members_preserves (R : State → State → Prop) (HR : PreOrder R) dir members :
  (∀ name data, preserves R (write_file (os_path_join dir name) data)) →
  preserves R (write_members dir members).
Proof.
  intros Hw. unfold write_members.
  induction members as [|[name data] members IH]; simpl.
  - by apply preserves_ret.
  - apply preserves_bind; [done|apply Hw|]. intros _. exact IH.
Qed.

(** *** Steps that leave the store alone *)

Lemma fetch_file_same_store url filepath max_age_seconds :
  preserves same_store (fetch_file url filepath max_age_seconds).
Proof. autounfold with pipeline. frame. Qed.

Lemma write_members_same_store dir members :
  preserves same_store (write_members dir members).
Proof.
  apply write_members_preserves; [apply _|]. intros. unfold write_file. frame.
Qed.
#[local] Hint Resolve write_members_same_store : frame.

Lemma extract_gtfs_zip_same_store : preserves same_store extract_gtfs_zip.
Proof. unfold extract_gtfs_zip. autounfold with pipeline. frame. Qed.

Lemma load_csv_dict_same_store filepath : preserves same_store (load_csv_dict filepath).
Proof. unfold load_csv_dict. autounfold with pipeline. frame. Qed.

(** *** How each step can fail *)

Lemma fetch_file_raise url filepath max_age_seconds st e st' :
  fetch_file url filepath max_age_seconds st = (Raise e, st') →
  e = HTTPException 500 (DownloadError url).
Proof.
  rewrite fetch_file_run. intros Hrun.
  destruct (is_fresh _ _ _); [done|].
  destruct (net _ _) as [|c b]; [by simplify_eq|].
  destruct (is_http_error c); by simplify_eq.
Qed.

Lemma read_file_run filepath st :
  read_file filepath st =
  match fs (world st) !! filepath with
  | Some f => (Ok (content f), st)
  | None => (Raise (FileNotFoundError filepath), st)
  end.
Proof.
  unfold read_file, bind, get_world. by destruct (fs (world st) !! filepath).
Qed.

Lemma load_csv_dict_run filepath st :
  load_csv_dict filepath st =
  match fs (world st) !! filepath with
  | Some f =>
      match csv_DictReader (content f) with
      | Some rows => (Ok rows, st)
      | None => (Raise (HTTPException 500 (CsvLoadError filepath)), st)
      end
  | None => (Raise (HTTPException 500 (CsvNotFound filepath)), st)
  end.
Proof.
  unfold load_csv_dict, try_except, bind. rewrite read_file_run.
  destruct (fs (world st) !! filepath) as [f|]; [|done].
  by destruct (csv_DictReader (content f)).
Qed.

Lemma load_feed_run filepath st :
  load_feed filepath st =
  match fs (world st) !! filepath with
  | Some f =>
      match ParseFromString (content f) with
      | Some feed => (Ok feed, st)
      | None => (Raise (HTTPException 500 (FeedParseError filepath)), st)
      end
  | None => (Raise (HTTPException 500 (FeedNotFound filepath)), st)
  end.
Proof.
  unfold load_feed, try_except, bind. rewrite read_file_run.
  destruct (fs (world st) !! filepath) as [f|]; [|done].
  by destruct (ParseFromString (content f)).
Qed.

Lemma result_bind_raise {A B} (r : result A) (k : A → result B) e :
  result_bind r k = Raise e →
  r = Raise e ∨ ∃ a, r = Ok a ∧ k a = Raise e.
Proof. destruct r as [a|e0]; simpl; [eauto|]. intros; simplify_eq. by left. Qed.

Lemma for_each_raise {A B} (body : B → A → result B) l acc e :
  for_each body l acc = Raise e →
  ∃ acc' x, x ∈ l ∧ body acc' x = Raise e.
Proof.
  revert acc. induction l as [|x l IH]; intros acc; simpl; [done|].
  intros [Hx|(acc' & Hx & Hl)]%result_bind_raise.
  - exists acc, x. split; [left|done].
  - destruct (IH _ Hl) as (acc'' & y & Hy & Hbody).
    exists acc'', y. split; [by right|done].
Qed.

Lemma getitem_raise d key e : getitem d key = Raise e → e = KeyError key.
Proof. unfold getitem. destruct (d !! key); intros; by simplify_eq. Qed.

Lemma py_float_raise v e :
  py_float v = Raise e →
  (v = None ∧ e = TypeError) ∨ ∃ s, v = Some s ∧ float_of_str s = None ∧ e = ValueError s.
Proof.
  unfold py_float. destruct v as [s|]; [|intros; simplify_eq; by left].
  destruct (float_of_str s) eqn:Hs; intros; simplify_eq. right. eauto.
Qed.

Lemma py_int_raise v e :
  py_int v = Raise e →
  (v = None ∧ e = TypeError) ∨ ∃ s, v = Some s ∧ int_of_str s = None ∧ e = ValueError s.
Proof.
  unfold py_int. destruct v as [s|]; [|intros; simplify_eq; by left].
  destruct (int_of_str s) eqn:Hs; intros; simplify_eq. right. eauto.
Qed.

(** Grouping the shape rows raises a [KeyError], a [TypeError] or a
    [ValueError], never an [HTTPException]. *)
Lemma build_shapes_dict_raise shapes e :
  build_shapes_dict shapes = Raise e → ¬ is_http e.
Proof.
  unfold build_shapes_dict.
  intros [Hloop|(? & _ & ?)]%result_bind_raise; [|done].
  apply for_each_raise in Hloop as (acc & row & _ & Hrow).
  unfold group_shape_row in Hrow.
  repeat match goal with
    | Hr : result_bind _ _ = Raise _ |- _ =>
        apply result_bind_raise in Hr as [Hr|(? & _ & Hr)]
    | Hr : getitem _ _ = Raise _ |- _ => apply getitem_raise in Hr as ->
    | Hr : py_float _ = Raise _ |- _ =>
        apply py_float_raise in Hr as [[_ ->]|(? & _ & _ & ->)]
    | Hr : py_int _ = Raise _ |- _ =>
        apply py_int_raise in Hr as [[_ ->]|(? & _ & _ & ->)]
    end; first [done | simpl; tauto].
Qed.

Lemma build_trip_shape_map_raise trips e :
  build_trip_shape_map trips = Raise e → ¬ is_http e.
Proof.
  unfold build_trip_shape_map. intros Hloop.
  apply for_each_raise in Hloop as (acc & row & _ & Hrow).
  repeat match goal with
    | Hr : result_bind _ _ = Raise _ |- _ =>
        apply result_bind_raise in Hr as [Hr|(? & _ & Hr)]
    | Hr : getitem _ _ = Raise _ |- _ => apply getitem_raise in Hr as ->
    end; first [done | simpl; tauto].
Qed.

End Steps.
(** * The outcomes of a refresh *)

Section Body.
Context `{Libraries}.


Lemma world_step_inv {A B} (m : M A) (k : A → M B) st0 st r st' :
  preserves same_store m → same_store st0 st →
  bind m k st = (r, st') →
  (∃ a st1, m st = (Ok a, st1) ∧ same_store st0 st1 ∧ k a st1 = (r, st')) ∨
  (∃ e, m st = (Raise e, st') ∧ r = Raise e ∧ same_store st0 st').
Proof.
  intros Hm Hs [(a & st1 & E & Hk)|(e & E & ->)]%bind_inv.
  - left. exists a, st1. split_and!; [done| |done].
    etrans; [exact Hs|]. by eapply preserves_run.
  - right. exists e. split_and!; [done..|].
    etrans; [exact Hs|]. by eapply preserves_run.
Qed.

Lemma lift_inv {A} (r r' : result A) st st' : lift r st = (r', st') → r' = r ∧ st' = st.
Proof. unfold lift. intros; by simplify_eq. Qed.

Lemma gtfs_member_path name : os_path_join GTFS_DIR name ≠ GTFS_ZIP_FILE.
Proof. cbv. discriminate. Qed.

Lemma write_members_same_zip members :
  preserves (same_file GTFS_ZIP_FILE) (write_members GTFS_DIR members).
Proof.
  apply write_members_preserves; [apply _|]. intros name data.
  unfold write_file. apply write_same_file, gtfs_member_path.
Qed.

Lemma fetch_file_ok_present url filepath max_age_seconds st st' :
  fetch_file url filepath max_age_seconds st = (Ok tt, st') →
  is_Some (fs (world st') !! filepath).
Proof.
  rewrite fetch_file_run. destruct (is_fresh _ _ _) eqn:Hfresh.
  - intros; simplify_eq. apply is_fresh_true in Hfresh as (f & -> & _). by eexists.
  - destruct (net _ _) as [|c body]; [done|]. destruct (is_http_error c); [done|].
    intros; simplify_eq. simpl. rewrite lookup_insert_eq. by eexists.
Qed.

Lemma extract_gtfs_zip_raise st e st' :
  extract_gtfs_zip st = (Raise e, st') →
  (e = HTTPException 500 BadZipDetail ∧ fs (world st') !! GTFS_ZIP_FILE = None) ∨
  (e = HTTPException 500 UnzipError ∧ same_file GTFS_ZIP_FILE st st').
Proof.
  unfold extract_gtfs_zip.
  intros [(? & _ & ?)|(e0 & st1 & Hinner & Hh)]%try_except_inv; [done|].
  apply (preserves_run (same_file GTFS_ZIP_FILE) _) in Hinner;
    [|autounfold with pipeline; frame; apply write_members_same_zip].
  destruct e0; unfold bind, os_remove, modify_world, raise in Hh;
    simplify_eq; auto.
  left. split; [done|]. simpl. apply lookup_delete_eq.
Qed.

Lemma load_csv_dict_raise filepath st e st' :
  load_csv_dict filepath st = (Raise e, st') → early_failure st' e.
Proof.
  rewrite load_csv_dict_run. intros Hrun.
  destruct (fs (world st) !! filepath) as [f|];
    [destruct (csv_DictReader (content f))|]; simplify_eq; constructor.
Qed.

Lemma load_feed_raise filepath st e st' :
  load_feed filepath st = (Raise e, st') →
  st' = st ∧ ∃ d, e = HTTPException 500 d ∧ feed_detail d.
Proof.
  rewrite load_feed_run. intros Hrun.
  destruct (fs (world st) !! filepath) as [f|];
    [destruct (ParseFromString (content f))|]; simplify_eq; split; try done; by eexists.
Qed.

Lemma load_feed_ok filepath st feed st' :
  load_feed filepath st = (Ok feed, st') →
  st' = st ∧ ∃ f, fs (world st) !! filepath = Some f ∧
                  ParseFromString (content f) = Some feed.
Proof.
  rewrite load_feed_run. intros Hrun.
  destruct (fs (world st) !! filepath) as [f|] eqn:Hf;
    [destruct (ParseFromString (content f)) eqn:Hp|]; simplify_eq.
  split; [done|]. by exists f.
Qed.

(** Runs the assignments at the head of [E]. *)
Ltac assigned E :=
  unfold set_shapes_dict, set_trips, set_trip_shape_map, set_trip_delays,
    set_vehicle_positions, set_last_updated, time_time, bind, ret,
    get_store, put_store, get_world in E;
  simplify_eq.

Lemma refresh_body_outcome st r st' :
  refresh_body st = (r, st') → refresh_outcome st r st'.
Proof.
  intros Hrun. unfold refresh_body in Hrun.
  assert (Hs : same_store st st) by done.
  (* the three fetches *)
  apply world_step_inv with (st0 := st) in Hrun
    as [(_ & st1 & _ & Hs1 & Hrun)|(e & E & -> & [? ?])];
    [|apply fetch_file_raise in E as ->;
      apply failed_untouched; [done..|constructor]
     |apply fetch_file_same_store|done].
  apply world_step_inv with (st0 := st) in Hrun
    as [(_ & st2 & _ & Hs2 & Hrun)|(e & E & -> & [? ?])];
    [|apply fetch_file_raise in E as ->;
      apply failed_untouched; [done..|constructor]
     |apply fetch_file_same_store|done].
  apply world_step_inv with (st0 := st) in Hrun
    as [([] & st3 & Hzip%fetch_file_ok_present & Hs3 & Hrun)|(e & E & -> & [? ?])];
    [|apply fetch_file_raise in E as ->;
      apply failed_untouched; [done..|constructor]
     |apply fetch_file_same_store|done].
  (* unzip, then the two tables *)
  apply world_step_inv with (st0 := st) in Hrun
    as [(_ & st4 & _ & Hs4 & Hrun)|(e & E & -> & [? ?])];
    [|apply failed_untouched; [done..|];
      apply extract_gtfs_zip_raise in E as [[-> Hgone]|[-> Hkept]];
      constructor; [done|by rewrite Hkept]
     |apply extract_gtfs_zip_same_store|done].
  apply world_step_inv with (st0 := st) in Hrun
    as [(shapes & st5 & _ & Hs5 & Hrun)|(e & E & -> & [? ?])];
    [|apply failed_untouched; [done..|]; by eapply load_csv_dict_raise
     |apply load_csv_dict_same_store|done].
  apply world_step_inv with (st0 := st) in Hrun
    as [(trips & st6 & _ & [Hstore Hobs] & Hrun)|(e & E & -> & [? ?])];
    [|apply failed_untouched; [done..|]; by eapply load_csv_dict_raise
     |apply load_csv_dict_same_store|done].
  (* the shape index *)
  step Hrun as index st7 E;
    [apply lift_inv in E as [Hindex ->]
    |apply lift_inv in E as [Hindex ->];
     apply failed_untouched; [done..|]; constructor;
     by eapply build_shapes_dict_raise].
  step Hrun as u1 st8 E1; assigned E1.
  step Hrun as u2 st9 E2; assigned E2.
  (* the trip map *)
  step Hrun as trip_map st10 E3;
    [apply lift_inv in E3 as [Htrip_map ->]
    |apply lift_inv in E3 as [Htrip_map ->];
     apply (failed_after_static _ _ _ shapes trips index);
       [done|simpl; congruence|simpl; congruence|];
     by eapply build_trip_shape_map_raise].
  step Hrun as u3 st11 E4; assigned E4.
  (* the two feeds *)
  step Hrun as vehicle_feed st12 E5;
    [apply load_feed_ok in E5 as [-> (f & Hf & Hparse)]
    |apply load_feed_raise in E5 as [-> (d & -> & Hd)];
     apply (failed_at_feeds _ _ _ shapes trips index trip_map);
       [done|done|simpl; congruence|simpl; congruence|done]].
  step Hrun as trip_update_feed st13 E6;
    [apply load_feed_ok in E6 as [-> _]
    |apply load_feed_raise in E6 as [-> (d & -> & Hd)];
     apply (failed_at_feeds _ _ _ shapes trips index trip_map);
       [done|done|simpl; congruence|simpl; congruence|done]].
  (* the delay map, then the fusion *)
  step Hrun as u4 st14 E7; assigned E7.
  step Hrun as ds st15 E8; assigned E8.
  step Hrun as records st16 E9;
    [apply lift_inv in E9 as [Hrecords ->]
    |apply lift_inv in E9 as [Hrecords ->];
     apply (failed_at_fusion _ _ _ shapes trips index trip_map vehicle_feed
              trip_update_feed);
       [done|done|simpl in *; congruence|simpl; congruence|simpl; congruence|];
     by eapply process_vehicles_not_http].
  (* the vehicle list, the timestamp *)
  assigned Hrun.
  apply (refreshed _ _ shapes trips index trip_map f vehicle_feed trip_update_feed records);
    [done|done|exact Hf|exact Hparse|simpl in *; congruence
    |simpl; congruence|simpl; congruence].
Qed.

End Body.
Section Refresh.
Context `{Libraries}.

Lemma fetch_and_process_data_run st :
  fetch_and_process_data st = ((reported (refresh_body st).1), (refresh_body st).2).
Proof.
  unfold fetch_and_process_data, try_except.
  destruct (refresh_body st) as [[[]|e] st1]; [done|]. by destruct e.
Qed.

Lemma fetch_and_process_data_outcome st r st' :
  fetch_and_process_data st = (r, st') →
  ∃ r0, refresh_outcome st r0 st' ∧ r = reported r0.
Proof.
  rewrite fetch_and_process_data_run. intros Hrun.
  exists (refresh_body st).1. simplify_eq. split; [|done].
  apply refresh_body_outcome. by destruct (refresh_body st).
Qed.

(** A refresh that raises has assigned neither the vehicle list nor the
    timestamp. *)
Lemma failed_refresh_vehicles st e st' :
  fetch_and_process_data st = (Raise e, st') →
  vehicle_positions (store st') = vehicle_positions (store st) ∧
  last_updated (store st') = last_updated (store st).
Proof.
  intros (r0 & Hout & Hr)%fetch_and_process_data_outcome.
  destruct Hout; [| | | |done];
    match goal with Hstore : store _ = _ |- _ => by rewrite Hstore end.
Qed.


End Refresh.


(** * Reads *)

Section Reads.
Context `{Libraries}.

Lemma get_vehicle_positions_run st :
  get_vehicle_positions st =
  (match vehicle_positions (store st) with
   | [] => Raise (HTTPException 404 NoVehicleData)
   | _ :: _ => Ok (vehicle_positions (store st))
   end, st).
Proof.
  unfold get_vehicle_positions, bind, get_store.
  by destruct (vehicle_positions (store st)).
Qed.

(** Until a refresh has returned the store has no vehicle and no timestamp;
    from then on it has a timestamp. *)
Lemma served_invariant b ds :
  served b ds →
  if b then is_Some (last_updated ds)
  else vehicle_positions ds = [] ∧ last_updated ds = None.
Proof.
  induction 1 as [|b ds w st' _ IH Hrun|b ds w e st' _ IH Hrun].
  - done.
  - apply fetch_and_process_data_outcome in Hrun as (r0 & Hout & Hr).
    destruct r0 as [[]|e0]; [|by destruct e0].
    inversion Hout; subst.
    match goal with Hst : store st' = _ |- _ => rewrite Hst end. by eexists.
  - apply failed_refresh_vehicles in Hrun as [Hv Ht].
    simpl in Hv, Ht. by rewrite Hv, Ht.
Qed.

(** The shape index of the store is sorted throughout the life of the
    process. *)
Lemma served_shapes_sorted b ds shape_id pts :
  served b ds →
  shapes_dict ds !! shape_id = Some pts →
  StronglySorted by_seq pts.
Proof.
  intros Hserved. revert shape_id pts.
  assert (Hstep : ∀ ds w r st',
            (∀ sid pts, shapes_dict ds !! sid = Some pts → StronglySorted by_seq pts) →
            fetch_and_process_data (start w ds) = (r, st') →
            ∀ sid pts, shapes_dict (store st') !! sid = Some pts →
                       StronglySorted by_seq pts).
  { clear. intros ds w r st' IH (r0 & Hout & _)%fetch_and_process_data_outcome sid pts.
    destruct Hout;
      match goal with Hstore : store _ = _ |- _ => rewrite Hstore end;
      simpl; eauto using build_shapes_dict_sorted. }
  induction Hserved as [|b ds w st' _ IH Hrun|b ds w e st' _ IH Hrun]; [done|eauto..].
Qed.

(** C3, as the code has it: the read raises the no-data error exactly when
    the stored vehicle list is empty. Before the first refresh that returns
    it always does, and the store has no timestamp; after one the store has
    a timestamp, and the read returns the stored list unless that list is
    empty. *)
Theorem read_fails_iff_vehicle_list_empty (b : bool) (ds : GTFSDataStore) (w : World) :
  served b ds →
  let read := (get_vehicle_positions (start w ds)).1 in
  (read = Raise (HTTPException 404 NoVehicleData) ↔ vehicle_positions ds = []) ∧
  (vehicle_positions ds ≠ [] → read = Ok (vehicle_positions ds)) ∧
  (b = false →
     read = Raise (HTTPException 404 NoVehicleData) ∧ last_updated ds = None) ∧
  (b = true → is_Some (last_updated ds)).
Proof.
  intros Hserved%served_invariant read. subst read.
  rewrite get_vehicle_positions_run. simpl.
  split_and!.
  - by destruct (vehicle_positions ds).
  - by destruct (vehicle_positions ds).
  - intros ->. destruct Hserved as [-> ->]. done.
  - intros ->. done.
Qed.

(** What the fusion reads of the store: the three maps. *)
Lemma process_vehicles_ext ds ds' feed :
  shapes_dict ds' = shapes_dict ds →
  trip_shape_map ds' = trip_shape_map ds →
  trip_delays ds' = trip_delays ds →
  process_vehicles ds' feed = process_vehicles ds feed.
Proof.
  intros Hshapes Hmap Hdelays. rewrite !process_vehicles_spec.
  induction (omap FeedEntity.vehicle (FeedMessage.entity feed)) as [|v l IH]; simpl;
    [done|].
  rewrite IH. unfold fuse_vehicle. by rewrite Hshapes, Hmap, Hdelays.
Qed.

(** The values the store goes through in a run, latest first: the vehicle
    list changes at one assignment, the timestamp at the next. *)
Lemma refresh_trace st r st' :
  fetch_and_process_data st = (r, st') →
  let old (seen : GTFSDataStore) :=
    vehicle_positions seen = vehicle_positions (store st) ∧
    last_updated seen = last_updated (store st) in
  ∃ new,
    observed st' = (new ++ observed st)%list ∧
    match r with
    | Raise _ => Forall old (store st' :: new)
    | Ok _ =>
        ∃ installed earlier f vehicle_feed,
          new = store st' :: installed :: earlier ∧
          Forall old earlier ∧
          vehicle_positions installed = vehicle_positions (store st') ∧
          last_updated installed = last_updated (store st) ∧
          last_updated (store st') = Some (now (world st')) ∧
          fs (world st') !! VEHICLE_POSITIONS_FILE = Some f ∧
          ParseFromString (content f) = Some vehicle_feed ∧
          process_vehicles (store st') vehicle_feed = Ok (vehicle_positions (store st'))
    end.
Proof.
  intros (r0 & Hout & ->)%fetch_and_process_data_outcome old.
  destruct Hout as [e0 st' Hstore Hobs _
                   |e0 st' shapes trips index s1 s2 _ Hstore Hobs _
                   |d st' shapes trips index trip_map s1 s2 s3 _ _ Hstore Hobs _
                   |e0 st' shapes trips index trip_map vehicle_feed trip_update_feed
                      s1 s2 s3 s4 _ _ _ Hstore Hobs _
                   |st' shapes trips index trip_map f vehicle_feed trip_update_feed records
                      s1 s2 s3 s4 s5 s6 _ _ Hf Hparse Hrecords Hstore Hobs].
  - exists []. split; [done|]. rewrite Hstore.
    destruct e0; simpl; repeat constructor.
  - exists [s2; s1]. split; [done|]. rewrite Hstore.
    destruct e0; simpl; repeat constructor.
  - exists [s3; s2; s1]. split; [done|]. rewrite Hstore. simpl. repeat constructor.
  - exists [s4; s3; s2; s1]. split; [done|]. rewrite Hstore.
    destruct e0; simpl; repeat constructor.
  - exists [s6; s5; s4; s3; s2; s1]. split; [done|]. simpl.
    exists s5, [s4; s3; s2; s1], f, vehicle_feed. rewrite Hstore.
    split_and!; [done|repeat constructor|done..|].
    etrans; [|exact Hrecords]. by apply process_vehicles_ext.
Qed.

(** C9: the vehicle list of the store is replaced whole. Every value the
    store goes through during a refresh holds either the vehicle list it
    held before the run or the list the run ends with. A run that returns
    ends with the list fused from the whole parsed vehicle feed, one record
    per vehicle entity, installed by one assignment: the values before it
    hold the old list, the two from it on the new one. A run that raises
    has installed nothing. *)
Theorem vehicle_list_replaced_whole
    (w : World) (ds : GTFSDataStore) (r : result unit) (st' : State) :
  fetch_and_process_data (start w ds) = (r, st') →
  (∀ seen, seen ∈ observed st' →
     vehicle_positions seen = vehicle_positions ds ∨
     vehicle_positions seen = vehicle_positions (store st')) ∧
  (r = Ok tt →
     ∃ (f : File) (vehicle_feed : FeedMessage.t) installed earlier,
       fs (world st') !! VEHICLE_POSITIONS_FILE = Some f ∧
       ParseFromString (content f) = Some vehicle_feed ∧
       process_vehicles (store st') vehicle_feed = Ok (vehicle_positions (store st')) ∧
       length (vehicle_positions (store st')) =
         length (omap FeedEntity.vehicle (FeedMessage.entity vehicle_feed)) ∧
       observed st' = store st' :: installed :: earlier ∧
       vehicle_positions installed = vehicle_positions (store st') ∧
       Forall (λ seen, vehicle_positions seen = vehicle_positions ds) earlier) ∧
  (∀ e, r = Raise e →
     vehicle_positions (store st') = vehicle_positions ds ∧
     ∀ seen, seen ∈ observed st' → vehicle_positions seen = vehicle_positions ds).
Proof.
  intros (new & Hobs & Hnew)%refresh_trace. simpl in Hobs, Hnew.
  rewrite app_nil_r in Hobs. subst new. split_and!.
  - intros seen Hseen. destruct r as [[]|e].
    + destruct Hnew as (installed & earlier & f & feed & Hobs & Hold & Hinst & _).
      rewrite Hobs in Hseen.
      apply elem_of_cons in Hseen as [->|Hseen]; [by right|].
      apply elem_of_cons in Hseen as [->|Hseen]; [by right|].
      left. rewrite Forall_forall in Hold. by apply Hold.
    + apply Forall_cons in Hnew as [_ Hold].
      left. rewrite Forall_forall in Hold. by apply Hold.
  - intros ->.
    destruct Hnew as (installed & earlier & f & feed & Hobs & Hold & Hinst & _ & _
                      & Hf & Hparse & Hrecords).
    exists f, feed, installed, earlier. split_and!; try done.
    + by eapply process_vehicles_length.
    + eapply Forall_impl; [exact Hold|]. by intros seen [? _].
  - intros e ->. apply Forall_cons in Hnew as [[Hlast _] Hold]. split; [done|].
    intros seen Hseen. rewrite Forall_forall in Hold. by apply Hold.
Qed.


End Reads.

Lemma read_fails_iff_vehicle_list_empty_witness :
  let w := Sample.empty_cache 1000 Sample.offline in
  (get_vehicle_positions (start w data_store_init)).1
  = Raise (HTTPException 404 NoVehicleData).
Proof.
  intros w.
  destruct (read_fails_iff_vehicle_list_empty (H := Sample.libs)
              false data_store_init w (served_init (H := Sample.libs)))
    as (_ & _ & Hbefore & _).
  by destruct (Hbefore eq_refl).
Defined.

(** C3, as stated, fails: after a refresh that returned with a feed of no
    vehicle the read still raises the no-data error. *)
Lemma read_fails_after_successful_refresh :
  let w := Sample.empty_cache 1000
             (Sample.serve Sample.no_entity_pb Sample.one_delay_pb Sample.good_zip) in
  let out := fetch_and_process_data (H := Sample.libs) (start w data_store_init) in
  out.1 = Ok tt ∧
  served (H := Sample.libs) true (store out.2) ∧
  last_updated (store out.2) = Some 1000 ∧
  (get_vehicle_positions (start w (store out.2))).1
  = Raise (HTTPException 404 NoVehicleData).
Proof.
  intros w out.
  assert (Hok : out.1 = Ok tt) by (vm_compute; reflexivity).
  split_and!; [exact Hok| |vm_compute; reflexivity..].
  apply (served_refresh_ok (H := Sample.libs) false data_store_init w);
    [constructor|].
  rewrite <- Hok. apply surjective_pairing.
Qed.

Lemma vehicle_list_replaced_whole_witness :
  let w1 := Sample.empty_cache 1000
              (Sample.serve Sample.one_vehicle_pb Sample.no_entity_pb Sample.good_zip) in
  let out1 := fetch_and_process_data (H := Sample.libs) (start w1 data_store_init) in
  let w2 := {| fs := fs (world out1.2); now := 1020;
               net := Sample.serve Sample.two_vehicle_pb Sample.one_delay_pb
                        Sample.good_zip;
               requests_log := [] |} in
  let out2 := fetch_and_process_data (H := Sample.libs) (start w2 (store out1.2)) in
  out2.1 = Ok tt ∧
  length (vehicle_positions (store out1.2)) = 1%nat ∧
  length (vehicle_positions (store out2.2)) = 2%nat ∧
  length (observed out2.2) = 6%nat ∧
  Forall (λ seen, vehicle_positions seen = vehicle_positions (store out1.2) ∨
                  vehicle_positions seen = vehicle_positions (store out2.2))
         (observed out2.2).
Proof.
  intros w1 out1 w2 out2.
  destruct (vehicle_list_replaced_whole (H := Sample.libs)
              w2 (store out1.2) out2.1 out2.2 (surjective_pairing out2))
    as (Hseen & _ & _).
  split_and!; [vm_compute; reflexivity..|].
  apply Forall_forall. exact Hseen.
Defined.



(** * The cached archive *)

Section Archive.
Context `{Libraries}.

Lemma refresh_body_split :
  refresh_body =
  (fetch_file VEHICLE_POSITIONS_URL VEHICLE_POSITIONS_FILE 10;;
   fetch_file TRIP_UPDATES_URL TRIP_UPDATES_FILE 10;;
   fetch_file GTFS_ZIP_URL GTFS_ZIP_FILE 86400;;
   after_fetches).
Proof. reflexivity. Qed.

Lemma write_more_requests filepath data :
  preserves more_requests (modify_world (world_write filepath data)).
Proof. apply same_requests_more, write_same_requests. Qed.

Lemma remove_more_requests filepath :
  preserves more_requests (modify_world (world_remove filepath)).
Proof. apply same_requests_more, remove_same_requests. Qed.

Lemma put_store_more_requests s : preserves more_requests (put_store s).
Proof. apply same_requests_more, put_store_same_requests. Qed.

Lemma write_members_more_requests dir members :
  preserves more_requests (write_members dir members).
Proof.
  apply write_members_preserves; [apply _|]. intros. apply write_more_requests.
Qed.

#[local] Hint Resolve write_more_requests remove_more_requests
  put_store_more_requests write_members_more_requests : frame.

Lemma after_fetches_more_requests : preserves more_requests after_fetches.
Proof.
  unfold after_fetches, extract_gtfs_zip, load_csv_dict, load_feed,
    set_shapes_dict, set_trips, set_trip_shape_map, set_trip_delays,
    set_vehicle_positions, set_last_updated.
  autounfold with pipeline. frame.
Qed.

Lemma fetch_file_more_requests url filepath max_age_seconds :
  preserves more_requests (fetch_file url filepath max_age_seconds).
Proof. autounfold with pipeline. frame. Qed.

Lemma fetch_file_same_file url filepath max_age_seconds other :
  filepath ≠ other →
  preserves (same_file other) (fetch_file url filepath max_age_seconds).
Proof.
  intros Hne. autounfold with pipeline. frame. by apply write_same_file.
Qed.

(** A fetch that finds no file asks the network, whatever comes of it. *)
Lemma fetch_file_absent_requests url filepath max_age_seconds st r st' :
  fs (world st) !! filepath = None →
  fetch_file url filepath max_age_seconds st = (r, st') →
  requests_log (world st') = (requests_log (world st) ++ [url])%list.
Proof.
  intros Habsent. rewrite fetch_file_run.
  unfold is_fresh. rewrite Habsent.
  destruct (net _ _) as [|c body]; [by intros; simplify_eq|].
  destruct (is_http_error c); by intros; simplify_eq.
Qed.

Lemma realtime_paths_differ :
  VEHICLE_POSITIONS_FILE ≠ GTFS_ZIP_FILE ∧ TRIP_UPDATES_FILE ≠ GTFS_ZIP_FILE.
Proof. split; cbv; discriminate. Qed.

(** A refresh that finds no cached archive requests it, unless a realtime
    fetch fails first. *)
Lemma absent_archive_is_requested st r st' :
  fs (world st) !! GTFS_ZIP_FILE = None →
  fetch_and_process_data st = (r, st') →
  (∃ before after,
     requests_log (world st') =
     (requests_log (world st) ++ before ++ GTFS_ZIP_URL :: after)%list) ∨
  r = Raise (HTTPException 500 (DownloadError VEHICLE_POSITIONS_URL)) ∨
  r = Raise (HTTPException 500 (DownloadError TRIP_UPDATES_URL)).
Proof.
  intros Habsent. rewrite fetch_and_process_data_run. intros Hrep.
  destruct (refresh_body st) as [r0 st0] eqn:Hrun. simpl in Hrep. simplify_eq.
  rewrite refresh_body_split in Hrun.
  destruct realtime_paths_differ as [Hvp Htu].
  step Hrun as u1 st1 E1;
    [|apply fetch_file_raise in E1 as ->; right; by left].
  pose proof (preserves_run _ _ _ _ _ (fetch_file_more_requests _ _ _) E1) as [k1 Hk1].
  pose proof (preserves_run _ _ _ _ _ (fetch_file_same_file _ _ _ _ Hvp) E1) as Hz1.
  step Hrun as u2 st2 E2;
    [|apply fetch_file_raise in E2 as ->; right; by right].
  pose proof (preserves_run _ _ _ _ _ (fetch_file_more_requests _ _ _) E2) as [k2 Hk2].
  pose proof (preserves_run _ _ _ _ _ (fetch_file_same_file _ _ _ _ Htu) E2) as Hz2.
  assert (Habsent2 : fs (world st2) !! GTFS_ZIP_FILE = None)
    by (unfold same_file in *; congruence).
  left. step Hrun as u3 st3 E3.
  - apply (fetch_file_absent_requests _ _ _ _ _ _ Habsent2) in E3.
    pose proof (preserves_run _ _ _ _ _ after_fetches_more_requests Hrun) as [k4 Hk4].
    exists (k1 ++ k2)%list, k4.
    rewrite Hk4, E3, Hk2, Hk1. by rewrite <- !app_assoc.
  - apply (fetch_file_absent_requests _ _ _ _ _ _ Habsent2) in E3.
    exists (k1 ++ k2)%list, [].
    rewrite E3, Hk2, Hk1. by rewrite <- !app_assoc.
Qed.

Lemma reported_early st' e0 d :
  early_failure st' e0 → early_detail d →
  reported (Raise e0) = Raise (HTTPException 500 d) →
  early_failure st' (HTTPException 500 d).
Proof.
  intros He0 Hd Hr. destruct He0 as [| | | | |e0 Hno]; simpl in Hr; simplify_eq;
    try by constructor.
  destruct e0; simpl in Hno, Hr; [tauto|..]; simplify_eq; by destruct Hd.
Qed.

(** C8, as the code has it: when the extraction raises [BadZipFile] the
    cached archive is removed before the refresh fails, and a later refresh
    that still finds it missing requests it again unless a realtime fetch
    fails first; when the extraction fails in another way the cached
    archive stays. *)
Theorem bad_zip_removed_then_requested_again (st : State) (e : exn) (st' : State) :
  fetch_and_process_data st = (Raise e, st') →
  (e = HTTPException 500 BadZipDetail →
     fs (world st') !! GTFS_ZIP_FILE = None ∧
     ∀ st2 r st3,
       fs (world st2) !! GTFS_ZIP_FILE = fs (world st') !! GTFS_ZIP_FILE →
       fetch_and_process_data st2 = (r, st3) →
       (∃ before after,
          requests_log (world st3) =
          (requests_log (world st2) ++ before ++ GTFS_ZIP_URL :: after)%list) ∨
       r = Raise (HTTPException 500 (DownloadError VEHICLE_POSITIONS_URL)) ∨
       r = Raise (HTTPException 500 (DownloadError TRIP_UPDATES_URL))) ∧
  (e = HTTPException 500 UnzipError →
     is_Some (fs (world st') !! GTFS_ZIP_FILE)).
Proof.
  intros (r0 & Hout & Hr)%fetch_and_process_data_outcome.
  assert (Hearly : ∀ d, early_detail d → e = HTTPException 500 d →
                        early_failure st' (HTTPException 500 d)).
  { intros d Hd Hed. rewrite Hed in Hr. clear Hed.
    destruct Hout as [e0 st' _ _ He0|e0 st' ? ? ? ? ? _ _ _ He0
                     |d0 st' ? ? ? ? ? ? ? _ _ _ _ Hd0
                     |e0 st' ? ? ? ? ? ? ? ? ? ? _ _ _ _ _ He0| ];
      simpl in Hr; [| | | |done].
    - by eapply reported_early.
    - destruct e0; simpl in He0; [tauto|..]; simplify_eq; by destruct Hd.
    - injection Hr as ->. destruct d0; by simpl in *.
    - destruct e0; simpl in He0; [tauto|..]; simplify_eq; by destruct Hd. }
  split.
  - intros ->. specialize (Hearly BadZipDetail I eq_refl).
    inversion Hearly as [|Hgone| | | |? Hno]; [|by destruct Hno].
    split; [done|]. intros st2 r st3 Hsame Hrun.
    apply (absent_archive_is_requested st2 r st3); [congruence|done].
  - intros ->. specialize (Hearly UnzipError I eq_refl).
    inversion Hearly as [| |Hkept| | |? Hno]; [done|by destruct Hno].
Qed.

End Archive.

Lemma bad_zip_removed_then_requested_again_witness :
  let st := start (Sample.empty_cache 1000
                     (Sample.serve Sample.one_vehicle_pb Sample.one_delay_pb Sample.garbage))
                  data_store_init in
  let out := fetch_and_process_data (H := Sample.libs) st in
  out.1 = Raise (HTTPException 500 BadZipDetail) ∧
  fs (world out.2) !! GTFS_ZIP_FILE = None.
Proof.
  intros st out.
  assert (Hraise : out.1 = Raise (HTTPException 500 BadZipDetail))
    by (vm_compute; reflexivity).
  split; [exact Hraise|].
  assert (Hrun : fetch_and_process_data (H := Sample.libs) st = (Raise _, out.2))
    by (rewrite <- Hraise; apply surjective_pairing).
  destruct (bad_zip_removed_then_requested_again (H := Sample.libs) st _ _ Hrun)
    as [Hbad _].
  exact (proj1 (Hbad eq_refl)).
Defined.

(** C8, as stated, fails: an archive whose extraction fails without
    [BadZipFile] stays in the cache; a minute later the next refresh does
    not request it and fails on it again. *)
Lemma failed_extraction_keeps_archive :
  let st := start (Sample.empty_cache 1000
                     (Sample.serve Sample.one_vehicle_pb Sample.one_delay_pb
                        Sample.truncated_zip))
                  data_store_init in
  let out := fetch_and_process_data (H := Sample.libs) st in
  let again := fetch_and_process_data (H := Sample.libs) (elapse 60 out.2) in
  out.1 = Raise (HTTPException 500 UnzipError) ∧
  content <$> fs (world out.2) !! GTFS_ZIP_FILE = Some Sample.truncated_zip ∧
  again.1 = Raise (HTTPException 500 UnzipError) ∧
  requests_log (world again.2) =
    (requests_log (world out.2) ++ [VEHICLE_POSITIONS_URL; TRIP_UPDATES_URL])%list.
Proof. intros st out again. split_and!; vm_compute; reflexivity. Qed.
(** * Further properties of the fetcher *)

(** X1: when the slot needs a download and the request fails, or comes back
    with a 4xx or 5xx status, [fetch_file] raises the download error after
    one request; the cache and the store are as they were. *)
Theorem fetch_file_failure_keeps_cache
    (url filepath : string) (max_age_seconds : Z) (st : State) :
  needs_download filepath max_age_seconds (world st) →
  (net (world st) url = RequestFailed ∨
   ∃ status_code body, net (world st) url = Response status_code body ∧
                       400 ≤ status_code < 600) →
  ∃ st', fetch_file url filepath max_age_seconds st
         = (Raise (HTTPException 500 (DownloadError url)), st') ∧
         fs (world st') = fs (world st) ∧
         store st' = store st ∧
         requests_log (world st') = (requests_log (world st) ++ [url])%list.
Proof.
  intros Hneeds%is_fresh_false Hnet. rewrite fetch_file_run, Hneeds.
  destruct Hnet as [->|(c & body & -> & Hc)].
  - by eexists.
  - unfold is_http_error. rewrite bool_decide_eq_true_2 by done. by eexists.
Qed.

Lemma fetch_file_failure_keeps_cache_witness :
  let st := start (Sample.empty_cache 1000 (λ _, Response 503 [])) data_store_init in
  ∃ st', fetch_file GTFS_ZIP_URL GTFS_ZIP_FILE 86400 st
         = (Raise (HTTPException 500 (DownloadError GTFS_ZIP_URL)), st') ∧
         fs (world st') = fs (world st) ∧
         store st' = store st ∧
         requests_log (world st') = (requests_log (world st) ++ [GTFS_ZIP_URL])%list.
Proof.
  intros st.
  apply (fetch_file_failure_keeps_cache GTFS_ZIP_URL GTFS_ZIP_FILE 86400 st).
  - left. reflexivity.
  - right. exists 503, []. split; [reflexivity|lia].
Defined.

(** X2: when the slot needs a download and the response has any status
    outside 400..599, [fetch_file] returns after one request; the slot then
    holds the response body, stamped with the time of the call, and every
    other file is as it was. *)
Theorem fetch_file_download_fills_slot
    (url filepath : string) (max_age_seconds : Z) (st : State)
    (status_code : Z) (body : bytes) :
  needs_download filepath max_age_seconds (world st) →
  net (world st) url = Response status_code body →
  ¬ (400 ≤ status_code < 600) →
  ∃ st', fetch_file url filepath max_age_seconds st = (Ok tt, st') ∧
         fs (world st') !! filepath
         = Some {| content := body; mtime := now (world st) |} ∧
         (∀ other, other ≠ filepath →
            fs (world st') !! other = fs (world st) !! other) ∧
         store st' = store st ∧
         requests_log (world st') = (requests_log (world st) ++ [url])%list.
Proof.
  intros Hneeds%is_fresh_false Hnet Hc. rewrite fetch_file_run, Hneeds, Hnet.
  unfold is_http_error. rewrite bool_decide_eq_false_2 by done.
  eexists. split; [done|]. simpl. split_and!; [apply lookup_insert_eq| |done..].
  intros other Hother. by apply lookup_insert_ne.
Qed.

Lemma fetch_file_download_fills_slot_witness :
  let st := start (Sample.empty_cache 1000 (λ _, Response 304 [x01])) data_store_init in
  ∃ st', fetch_file TRIP_UPDATES_URL TRIP_UPDATES_FILE 10 st = (Ok tt, st') ∧
         fs (world st') !! TRIP_UPDATES_FILE
         = Some {| content := [x01]; mtime := 1000 |} ∧
         requests_log (world st') = [TRIP_UPDATES_URL].
Proof.
  intros st.
  destruct (fetch_file_download_fills_slot TRIP_UPDATES_URL TRIP_UPDATES_FILE 10 st
              304 [x01]) as (st' & Hrun & Hslot & _ & _ & Hlog).
  - left. reflexivity.
  - reflexivity.
  - lia.
  - exists st'. split_and!; [exact Hrun|exact Hslot|exact Hlog].
Defined.
(** * Further properties of a refresh: files and requests *)

#[global] Instance same_elsewhere_preorder : PreOrder same_elsewhere.
Proof.
  split; [by intros st p|].
  intros st1 st2 st3 H12 H23 p Hp. by rewrite H23, H12.
Qed.

Lemma write_same_elsewhere filepath data :
  own_path filepath →
  preserves same_elsewhere (modify_world (world_write filepath data)).
Proof.
  intros Hown st p Hp. simpl. apply lookup_insert_ne. by intros ->.
Qed.

Lemma remove_same_elsewhere filepath :
  own_path filepath →
  preserves same_elsewhere (modify_world (world_remove filepath)).
Proof.
  intros Hown st p Hp. simpl. apply lookup_delete_ne. by intros ->.
Qed.

Lemma log_same_elsewhere url : preserves same_elsewhere (modify_world (world_log url)).
Proof. by intros st p Hp. Qed.

Lemma put_store_same_elsewhere s : preserves same_elsewhere (put_store s).
Proof. by intros st p Hp. Qed.

Section Traffic.
Context `{Libraries}.

Lemma fetch_file_same_elsewhere url filepath max_age_seconds :
  own_path filepath →
  preserves same_elsewhere (fetch_file url filepath max_age_seconds).
Proof.
  intros Hown. autounfold with pipeline. frame.
  - apply log_same_elsewhere.
  - by apply write_same_elsewhere.
Qed.

Lemma extract_gtfs_zip_same_elsewhere : preserves same_elsewhere extract_gtfs_zip.
Proof.
  unfold extract_gtfs_zip. autounfold with pipeline. frame.
  - apply write_members_preserves; [apply _|]. intros name data.
    apply write_same_elsewhere. do 3 right. by exists name.
  - apply remove_same_elsewhere. do 2 right. by left.
Qed.

Lemma load_csv_dict_unchanged filepath st :
  (load_csv_dict filepath st).2 = st.
Proof.
  rewrite load_csv_dict_run.
  destruct (fs (world st) !! filepath) as [f|];
    [by destruct (csv_DictReader (content f))|done].
Qed.

Lemma load_feed_unchanged filepath st : (load_feed filepath st).2 = st.
Proof.
  rewrite load_feed_run.
  destruct (fs (world st) !! filepath) as [f|];
    [by destruct (ParseFromString (content f))|done].
Qed.

Lemma load_csv_dict_preserves (R : State → State → Prop) (HR : PreOrder R) filepath :
  preserves R (load_csv_dict filepath).
Proof. intros st. by rewrite load_csv_dict_unchanged. Qed.

Lemma load_feed_preserves (R : State → State → Prop) (HR : PreOrder R) filepath :
  preserves R (load_feed filepath).
Proof. intros st. by rewrite load_feed_unchanged. Qed.

(** A relation kept by the three fetches, by the extraction and by the
    assignments to the store is kept by the whole refresh. *)
Lemma refresh_preserves (R : State → State → Prop) (HR : PreOrder R) :
  preserves R (fetch_file VEHICLE_POSITIONS_URL VEHICLE_POSITIONS_FILE 10) →
  preserves R (fetch_file TRIP_UPDATES_URL TRIP_UPDATES_FILE 10) →
  preserves R (fetch_file GTFS_ZIP_URL GTFS_ZIP_FILE 86400) →
  preserves R extract_gtfs_zip →
  (∀ s, preserves R (put_store s)) →
  preserves R fetch_and_process_data.
Proof.
  intros Hvp Htu Hzip Hextract Hput.
  pose proof (load_csv_dict_preserves R HR) as Hcsv.
  pose proof (load_feed_preserves R HR) as Hfeed.
  unfold fetch_and_process_data, refresh_body, set_shapes_dict, set_trips,
    set_trip_shape_map, set_trip_delays, set_vehicle_positions, set_last_updated,
    time_time.
  repeat first
    [ assumption | apply Hcsv | apply Hfeed | apply Hput
    | apply preserves_ret; [apply _]
    | apply preserves_raise; [apply _]
    | apply preserves_lift; [apply _]
    | apply preserves_get_world; [apply _]
    | apply preserves_get_store; [apply _]
    | apply preserves_bind; [apply _| |intros ?]
    | apply preserves_try_except; [apply _| |intros ?]
    | match goal with
      | |- preserves _ (match ?x with _ => _ end) => destruct x
      end ].
Qed.

(** X3: a refresh, whether it returns or raises, changes no file other than
    its three cache files and the files of [GTFS_DIR]. *)
Theorem refresh_changes_only_own_files
    (st : State) (r : result unit) (st' : State) (filepath : string) :
  fetch_and_process_data st = (r, st') →
  filepath ≠ VEHICLE_POSITIONS_FILE →
  filepath ≠ TRIP_UPDATES_FILE →
  filepath ≠ GTFS_ZIP_FILE →
  (∀ name, filepath ≠ os_path_join GTFS_DIR name) →
  fs (world st') !! filepath = fs (world st) !! filepath.
Proof.
  intros Hrun Hvp Htu Hzip Hdir.
  eapply (preserves_run same_elsewhere _) in Hrun.
  - apply Hrun. intros [?|[?|[?|[name ?]]]]; [done..|]. by eapply Hdir.
  - apply refresh_preserves; [apply _|..].
    + apply fetch_file_same_elsewhere. by left.
    + apply fetch_file_same_elsewhere. right. by left.
    + apply fetch_file_same_elsewhere. do 2 right. by left.
    + apply extract_gtfs_zip_same_elsewhere.
    + apply put_store_same_elsewhere.
Qed.

End Traffic.

Lemma refresh_changes_only_own_files_witness :
  let w := {| fs := {["notes.txt" := {| content := [x01]; mtime := 5 |}]};
              now := 1000;
              net := Sample.serve Sample.one_vehicle_pb Sample.one_delay_pb Sample.garbage;
              requests_log := [] |} in
  let out := fetch_and_process_data (H := Sample.libs) (start w data_store_init) in
  fs (world out.2) !! "notes.txt" = Some {| content := [x01]; mtime := 5 |}.
Proof.
  intros w out.
  rewrite (refresh_changes_only_own_files (H := Sample.libs)
             (start w data_store_init) out.1 out.2 "notes.txt"
             (surjective_pairing out)).
  - reflexivity.
  - cbv. discriminate.
  - cbv. discriminate.
  - cbv. discriminate.
  - intros name. cbv. discriminate.
Defined.
Section Requests.
Context `{Libraries}.

Lemma fetch_file_requests url filepath max_age_seconds st r st' :
  fetch_file url filepath max_age_seconds st = (r, st') →
  ∃ l, requests_log (world st') = (requests_log (world st) ++ l)%list ∧
       (l = [] ∨ l = [url]).
Proof.
  rewrite fetch_file_run. destruct (is_fresh _ _ _).
  - intros; simplify_eq. exists []. by rewrite app_nil_r; auto.
  - exists [url]. split; [|by right].
    destruct (net _ _) as [|c body]; [by simplify_eq|].
    destruct (is_http_error c); by simplify_eq.
Qed.

Lemma write_members_same_requests dir members :
  preserves same_requests (write_members dir members).
Proof.
  apply write_members_preserves; [apply _|]. intros. apply write_same_requests.
Qed.

Lemma after_fetches_same_requests : preserves same_requests after_fetches.
Proof.
  pose proof write_members_same_requests.
  unfold after_fetches, extract_gtfs_zip, load_csv_dict, load_feed,
    set_shapes_dict, set_trips, set_trip_shape_map, set_trip_delays,
    set_vehicle_positions, set_last_updated.
  autounfold with pipeline. frame.
Qed.

(** X4: a refresh, whether it returns or raises, makes at most three
    requests, in the order vehicle positions, trip updates, archive, and each
    at most once. *)
Theorem refresh_requests_in_order (st : State) (r : result unit) (st' : State) :
  fetch_and_process_data st = (r, st') →
  ∃ new : list string,
    requests_log (world st') = (requests_log (world st) ++ new)%list ∧
    new `sublist_of` [VEHICLE_POSITIONS_URL; TRIP_UPDATES_URL; GTFS_ZIP_URL].
Proof.
  rewrite fetch_and_process_data_run. intros Hrep.
  destruct (refresh_body st) as [r0 st0] eqn:Hrun. simpl in Hrep. simplify_eq.
  rewrite refresh_body_split in Hrun.
  assert (Hsub : ∀ l1 l2 l3 : list string,
            (l1 = [] ∨ l1 = [VEHICLE_POSITIONS_URL]) →
            (l2 = [] ∨ l2 = [TRIP_UPDATES_URL]) →
            (l3 = [] ∨ l3 = [GTFS_ZIP_URL]) →
            (l1 ++ l2 ++ l3)%list
              `sublist_of` [VEHICLE_POSITIONS_URL; TRIP_UPDATES_URL; GTFS_ZIP_URL]).
  { intros l1 l2 l3 [->| ->] [->| ->] [->| ->]; simpl;
      repeat first [apply sublist_nil|apply sublist_skip|apply sublist_cons]. }
  step Hrun as u1 st1 E1; apply fetch_file_requests in E1 as (l1 & E1 & Hl1).
  2: { exists (l1 ++ [] ++ [])%list. split; [by rewrite !app_nil_r|].
       apply Hsub; auto. }
  step Hrun as u2 st2 E2; apply fetch_file_requests in E2 as (l2 & E2 & Hl2).
  2: { exists (l1 ++ l2 ++ [])%list.
       split; [by rewrite E2, E1, app_nil_r, <- app_assoc|]. apply Hsub; auto. }
  step Hrun as u3 st3 E3; apply fetch_file_requests in E3 as (l3 & E3 & Hl3).
  2: { exists (l1 ++ l2 ++ l3)%list.
       split; [by rewrite E3, E2, E1, <- !app_assoc|]. apply Hsub; auto. }
  apply (preserves_run same_requests _ _ _ _ after_fetches_same_requests) in Hrun.
  exists (l1 ++ l2 ++ l3)%list.
  split; [by rewrite Hrun, E3, E2, E1, <- !app_assoc|]. apply Hsub; auto.
Qed.

(** X5: when the three cache files are fresh a refresh makes no request at
    all. *)
Theorem warm_refresh_requests_nothing (st : State) (r : result unit) (st' : State) :
  fresh_in_cache VEHICLE_POSITIONS_FILE 10 (world st) →
  fresh_in_cache TRIP_UPDATES_FILE 10 (world st) →
  fresh_in_cache GTFS_ZIP_FILE 86400 (world st) →
  fetch_and_process_data st = (r, st') →
  requests_log (world st') = requests_log (world st).
Proof.
  intros Hvp%is_fresh_true Htu%is_fresh_true Hzip%is_fresh_true.
  rewrite fetch_and_process_data_run. intros Hrep.
  destruct (refresh_body st) as [r0 st0] eqn:Hrun. simpl in Hrep. simplify_eq.
  rewrite refresh_body_split in Hrun.
  step Hrun as u1 st1 E1; rewrite fetch_file_run, Hvp in E1; simplify_eq.
  step Hrun as u2 st2 E2; rewrite fetch_file_run, Htu in E2; simplify_eq.
  step Hrun as u3 st3 E3; rewrite fetch_file_run, Hzip in E3; simplify_eq.
  by apply (preserves_run same_requests _ _ _ _ after_fetches_same_requests) in Hrun.
Qed.

End Requests.

Lemma refresh_requests_in_order_witness :
  let st := start (Sample.empty_cache 1000
                     (Sample.serve Sample.one_vehicle_pb Sample.one_delay_pb Sample.good_zip))
                  data_store_init in
  let out := fetch_and_process_data (H := Sample.libs) st in
  ∃ new : list string,
    requests_log (world out.2) = (requests_log (world st) ++ new)%list ∧
    new `sublist_of` [VEHICLE_POSITIONS_URL; TRIP_UPDATES_URL; GTFS_ZIP_URL].
Proof.
  intros st out.
  exact (refresh_requests_in_order (H := Sample.libs) st out.1 out.2
           (surjective_pairing out)).
Defined.

Lemma warm_refresh_requests_nothing_witness :
  let file (data : bytes) := {| content := data; mtime := 995 |} in
  let w := {| fs := {[VEHICLE_POSITIONS_FILE := file Sample.one_vehicle_pb;
                      TRIP_UPDATES_FILE := file Sample.one_delay_pb;
                      GTFS_ZIP_FILE := file Sample.good_zip]};
              now := 1000; net := Sample.offline; requests_log := [] |} in
  let out := fetch_and_process_data (H := Sample.libs) (start w data_store_init) in
  out.1 = Ok tt ∧ requests_log (world out.2) = [].
Proof.
  intros file w out. split; [vm_compute; reflexivity|].
  apply (warm_refresh_requests_nothing (H := Sample.libs)
           (start w data_store_init) out.1 out.2).
  - exists (file Sample.one_vehicle_pb). split; [vm_compute; reflexivity|simpl; lia].
  - exists (file Sample.one_delay_pb). split; [vm_compute; reflexivity|simpl; lia].
  - exists (file Sample.good_zip). split; [vm_compute; reflexivity|simpl; lia].
  - apply surjective_pairing.
Defined.
(** * Further properties of a refresh: what a run that returns installs *)

(** A step of a run that returned has returned. *)
Tactic Notation "step_ok" hyp(H) "as" ident(a) ident(st1) ident(E) :=
  let e := fresh "e" in
  let Hbad := fresh "Hbad" in
  apply bind_inv in H as [(a & st1 & E & H) | (e & _ & Hbad)];
  [|discriminate Hbad].

(** Runs the assignments at the head of [E]. *)
Ltac run_assignments E :=
  unfold set_shapes_dict, set_trips, set_trip_shape_map, set_trip_delays,
    set_vehicle_positions, set_last_updated, time_time, bind, ret,
    get_store, put_store, get_world in E;
  simplify_eq.

Section Installed.
Context `{Libraries}.

Lemma load_csv_dict_ok filepath st rows st' :
  load_csv_dict filepath st = (Ok rows, st') →
  st' = st ∧ ∃ f, fs (world st) !! filepath = Some f ∧
                  csv_DictReader (content f) = Some rows.
Proof.
  rewrite load_csv_dict_run. intros Hrun.
  destruct (fs (world st) !! filepath) as [f|] eqn:Hf;
    [destruct (csv_DictReader (content f)) eqn:Hp|]; simplify_eq.
  split; [done|]. by exists f.
Qed.

(** X6: after a refresh that returned, every field of the store is computed
    from the cache as the run left it: the two tables under [GTFS_DIR] and
    the two feed files; nothing of the store before the run is left. *)
Theorem successful_refresh_installs_run_data (st st' : State) :
  fetch_and_process_data st = (Ok tt, st') →
  ∃ (shapes_file trips_file vehicles_file updates_file : File)
    (shape_rows trip_rows : list row)
    (vehicle_feed trip_update_feed : FeedMessage.t),
    fs (world st') !! os_path_join GTFS_DIR "shapes.txt" = Some shapes_file ∧
    csv_DictReader (content shapes_file) = Some shape_rows ∧
    fs (world st') !! os_path_join GTFS_DIR "trips.txt" = Some trips_file ∧
    csv_DictReader (content trips_file) = Some trip_rows ∧
    fs (world st') !! VEHICLE_POSITIONS_FILE = Some vehicles_file ∧
    ParseFromString (content vehicles_file) = Some vehicle_feed ∧
    fs (world st') !! TRIP_UPDATES_FILE = Some updates_file ∧
    ParseFromString (content updates_file) = Some trip_update_feed ∧
    build_shapes_dict shape_rows = Ok (shapes_dict (store st')) ∧
    trips (store st') = trip_rows ∧
    build_trip_shape_map trip_rows = Ok (trip_shape_map (store st')) ∧
    trip_delays (store st') = build_trip_delays trip_update_feed ∧
    process_vehicles (store st') vehicle_feed = Ok (vehicle_positions (store st')) ∧
    last_updated (store st') = Some (now (world st')).
Proof.
  rewrite fetch_and_process_data_run. intros Hrep.
  destruct (refresh_body st) as [r0 st0] eqn:Hrun. simpl in Hrep.
  assert (r0 = Ok tt) as ->.
  { destruct r0 as [[]|e]; [done|]. by destruct e. }
  simplify_eq. rewrite refresh_body_split in Hrun.
  step_ok Hrun as u1 st1 E1. clear E1.
  step_ok Hrun as u2 st2 E2. clear E2.
  step_ok Hrun as u3 st3 E3. clear E3.
  unfold after_fetches in Hrun.
  step_ok Hrun as u4 st4 E4. clear E4.
  step_ok Hrun as shape_rows st5 E5.
  apply load_csv_dict_ok in E5 as [-> (shapes_file & Hshapes & Hshape_rows)].
  step_ok Hrun as trip_rows st6 E6.
  apply load_csv_dict_ok in E6 as [-> (trips_file & Htrips & Htrip_rows)].
  step_ok Hrun as index st7 E7. apply lift_inv in E7 as [Hindex ->].
  step_ok Hrun as u5 st8 E8. run_assignments E8.
  step_ok Hrun as u6 st9 E9. run_assignments E9.
  step_ok Hrun as trip_map st10 E10. apply lift_inv in E10 as [Htrip_map ->].
  step_ok Hrun as u7 st11 E11. run_assignments E11.
  step_ok Hrun as vehicle_feed st12 E12.
  apply load_feed_ok in E12 as [-> (vehicles_file & Hvehicles & Hvehicle_feed)].
  step_ok Hrun as trip_update_feed st13 E13.
  apply load_feed_ok in E13 as [-> (updates_file & Hupdates & Hupdate_feed)].
  step_ok Hrun as u8 st14 E14. run_assignments E14.
  step_ok Hrun as ds st15 E15. run_assignments E15.
  step_ok Hrun as records st16 E16. apply lift_inv in E16 as [Hrecords ->].
  run_assignments Hrun. simpl in *.
  exists shapes_file, trips_file, vehicles_file, updates_file,
    shape_rows, trip_rows, vehicle_feed, trip_update_feed.
  split_and!; done.
Qed.

End Installed.

Lemma successful_refresh_installs_run_data_witness :
  let st := start (Sample.empty_cache 1000
                     (Sample.serve Sample.one_vehicle_pb Sample.one_delay_pb Sample.good_zip))
                  data_store_init in
  let out := fetch_and_process_data (H := Sample.libs) st in
  out.1 = Ok tt ∧
  trip_delays (store out.2) = {["t1" := 42]} ∧
  last_updated (store out.2) = Some 1000.
Proof.
  intros st out.
  assert (Hok : out.1 = Ok tt) by (vm_compute; reflexivity).
  assert (Hrun : fetch_and_process_data (H := Sample.libs) st = (Ok tt, out.2))
    by (rewrite <- Hok; apply surjective_pairing).
  destruct (successful_refresh_installs_run_data (H := Sample.libs) st out.2 Hrun)
    as (? & ? & ? & updates_file & ? & ? & ? & feed & _ & _ & _ & _ & _ & _ &
        Hfile & Hfeed & _ & _ & _ & Hdelays & _ & Hstamp).
  split_and!; [exact Hok| |rewrite Hstamp; vm_compute; reflexivity].
  rewrite Hdelays. vm_compute in Hfile. injection Hfile as <-.
  vm_compute in Hfeed. injection Hfeed as <-. vm_compute. reflexivity.
Defined.
(** * Further properties of the read endpoints *)

Section Status.
Context `{Libraries}.

Lemma get_data_status_run st :
  get_data_status st =
  (Ok match last_updated (store st) with
      | Some t => if bool_decide (t = 0) then None else Some t
      | None => None
      end, st).
Proof.
  unfold get_data_status, bind, get_store.
  destruct (last_updated (store st)) as [t|]; [|done]. by case_bool_decide.
Qed.

(** X7: a refresh that raises changes the answer of neither read endpoint. *)
Theorem failed_refresh_keeps_answers (st : State) (e : exn) (st' : State) :
  fetch_and_process_data st = (Raise e, st') →
  (get_vehicle_positions st').1 = (get_vehicle_positions st).1 ∧
  (get_data_status st').1 = (get_data_status st).1.
Proof.
  intros [Hv Ht]%failed_refresh_vehicles.
  rewrite !get_vehicle_positions_run, !get_data_status_run. simpl.
  by rewrite Hv, Ht.
Qed.

(** X8: the status endpoint answers null until a refresh has returned;
    right after a refresh that returned it answers the clock reading of
    that run, or null when that reading is zero. *)
Theorem data_status_reports_last_success :
  (∀ (ds : GTFSDataStore) (w : World),
     served false ds → (get_data_status (start w ds)).1 = Ok None) ∧
  (∀ st st' : State,
     fetch_and_process_data st = (Ok tt, st') →
     (get_data_status st').1 =
     Ok (if bool_decide (now (world st') = 0) then None else Some (now (world st')))).
Proof.
  split.
  - intros ds w [_ Hnone]%served_invariant.
    rewrite get_data_status_run. simpl. by rewrite Hnone.
  - intros st st' (r0 & Hout & Hr)%fetch_and_process_data_outcome.
    destruct r0 as [[]|e0]; [|by destruct e0].
    inversion Hout; subst.
    rewrite get_data_status_run. simpl.
    match goal with Hst : store st' = _ |- _ => rewrite Hst end. done.
Qed.

End Status.

Lemma failed_refresh_keeps_answers_witness :
  let w := Sample.empty_cache 1000
             (Sample.serve Sample.one_vehicle_pb Sample.one_delay_pb Sample.good_zip) in
  let first := fetch_and_process_data (H := Sample.libs) (start w data_store_init) in
  let later := {| fs := fs (world first.2); now := 2000; net := Sample.offline;
                  requests_log := requests_log (world first.2) |} in
  let second := fetch_and_process_data (H := Sample.libs) (start later (store first.2)) in
  second.1 = Raise (HTTPException 500 (DownloadError VEHICLE_POSITIONS_URL)) ∧
  (get_vehicle_positions second.2).1 = Ok (vehicle_positions (store first.2)) ∧
  (get_data_status second.2).1 = Ok (Some 1000).
Proof.
  intros w first later second.
  assert (Hraise : second.1 = Raise (HTTPException 500 (DownloadError VEHICLE_POSITIONS_URL)))
    by (vm_compute; reflexivity).
  assert (Hrun : fetch_and_process_data (H := Sample.libs) (start later (store first.2))
                 = (Raise _, second.2))
    by (rewrite <- Hraise; apply surjective_pairing).
  destruct (failed_refresh_keeps_answers (H := Sample.libs) _ _ _ Hrun) as [Hv Hs].
  split_and!; [exact Hraise|rewrite Hv|rewrite Hs]; vm_compute; reflexivity.
Defined.

Lemma data_status_reports_last_success_witness :
  let w := Sample.empty_cache 1000
             (Sample.serve Sample.one_vehicle_pb Sample.one_delay_pb Sample.good_zip) in
  let out := fetch_and_process_data (H := Sample.libs) (start w data_store_init) in
  (get_data_status (start w data_store_init)).1 = Ok None ∧
  (get_data_status out.2).1 = Ok (Some 1000).
Proof.
  intros w out.
  destruct (data_status_reports_last_success (H := Sample.libs)) as [Hbefore Hafter].
  split.
  - apply Hbefore. constructor.
  - assert (Hok : out.1 = Ok tt) by (vm_compute; reflexivity).
    rewrite (Hafter (start w data_store_init) out.2)
      by (rewrite <- Hok; apply surjective_pairing).
    vm_compute. reflexivity.
Defined.
(** * Further properties of the delay map and of the trip map *)

Lemma record_trip_delay_lookup (trip_delays : gmap string Z) entity trip_id :
  record_trip_delay trip_delays entity !! trip_id =
  match record_trip_delay ∅ entity !! trip_id with
  | Some d => Some d
  | None => trip_delays !! trip_id
  end.
Proof.
  unfold record_trip_delay.
  destruct (FeedEntity.trip_update entity) as [tu|]; [|done].
  destruct (TripUpdate.stop_time_update tu) as [|stu0 rest]; [done|].
  destruct (StopTimeUpdate.arrival stu0 ≫= StopTimeEvent.delay) as [d|];
    [|destruct (StopTimeUpdate.departure stu0 ≫= StopTimeEvent.delay) as [d|];
      [|done]].
  all: rewrite !lookup_insert; case_decide; by rewrite ?lookup_empty.
Qed.

Lemma foldl_record_trip_delay_silent (entities : list FeedEntity.t)
    (trip_delays : gmap string Z) trip_id :
  Forall (λ entity, record_trip_delay ∅ entity !! trip_id = None) entities →
  foldl record_trip_delay trip_delays entities !! trip_id = trip_delays !! trip_id.
Proof.
  intros Hsilent. revert trip_delays.
  induction Hsilent as [|entity entities Hentity _ IH]; intros trip_delays; simpl; [done|].
  by rewrite IH, record_trip_delay_lookup, Hentity.
Qed.

(** X9: over a whole feed the last entity that records a delay for a trip
    decides the delay of that trip, and a trip for which no entity records
    one has none. An entity records [d] for a trip when, alone in a feed, it
    would. *)
Theorem trip_delays_last_entity_wins :
  (∀ (before after : list FeedEntity.t) (entity : FeedEntity.t)
     (trip_id : string) (d : Z),
     record_trip_delay ∅ entity !! trip_id = Some d →
     Forall (λ later, record_trip_delay ∅ later !! trip_id = None) after →
     build_trip_delays {| FeedMessage.entity := before ++ entity :: after |}
       !! trip_id = Some d) ∧
  (∀ (entities : list FeedEntity.t) (trip_id : string),
     Forall (λ entity, record_trip_delay ∅ entity !! trip_id = None) entities →
     build_trip_delays {| FeedMessage.entity := entities |} !! trip_id = None).
Proof.
  unfold build_trip_delays. simpl. split.
  - intros before after entity trip_id d Hd Hafter.
    rewrite foldl_app. simpl.
    rewrite foldl_record_trip_delay_silent by done.
    by rewrite record_trip_delay_lookup, Hd.
  - intros entities trip_id Hsilent.
    by rewrite foldl_record_trip_delay_silent.
Qed.

Lemma trip_delays_last_entity_wins_witness :
  build_trip_delays
    {| FeedMessage.entity := [Sample.departure_only "t1" 10;
                              Sample.departure_only "t1" 20;
                              Sample.departure_only "t2" 7] |}
    !! "t1" = Some 20.
Proof.
  apply (proj1 trip_delays_last_entity_wins
           [Sample.departure_only "t1" 10] [Sample.departure_only "t2" 7]
           (Sample.departure_only "t1" 20) "t1" 20).
  - reflexivity.
  - constructor; [reflexivity|constructor].
Defined.

Section TripMap.
Context `{Libraries}.

Lemma for_each_app {A B} (body : B → A → result B) (l1 l2 : list A) (acc : B) :
  for_each body (l1 ++ l2) acc =
  result_bind (for_each body l1 acc) (for_each body l2).
Proof.
  revert acc. induction l1 as [|x l1 IH]; intros acc; simpl; [done|].
  destruct (body acc x); simpl; [apply IH|done].
Qed.

Lemma build_trip_shape_map_unfold trips :
  build_trip_shape_map trips = for_each map_trip trips ∅.
Proof. reflexivity. Qed.

Lemma map_trip_run acc trip :
  map_trip acc trip =
  match trip !! "trip_id", trip !! "shape_id" with
  | Some k, Some v => Ok (<[k := v]> acc)
  | Some _, None => Raise (KeyError "shape_id")
  | None, _ => Raise (KeyError "trip_id")
  end.
Proof.
  unfold map_trip, getitem.
  destruct (trip !! "trip_id"); simpl; [|done]. by destruct (trip !! "shape_id").
Qed.

Lemma for_each_map_trip_ok trips acc :
  Forall (λ trip, is_Some (trip !! "trip_id") ∧ is_Some (trip !! "shape_id")) trips →
  ∃ m, for_each map_trip trips acc = Ok m.
Proof.
  intros Hall. revert acc.
  induction Hall as [|trip trips [[k Hk] [v Hv]] _ IH]; intros acc; simpl; [by eexists|].
  rewrite map_trip_run, Hk, Hv. simpl. apply IH.
Qed.

Lemma for_each_map_trip_inv trips acc r :
  for_each map_trip trips acc = r →
  match r with
  | Ok _ => Forall (λ trip, is_Some (trip !! "trip_id") ∧ is_Some (trip !! "shape_id")) trips
  | Raise e =>
      ∃ before trip after, trips = (before ++ trip :: after)%list ∧
        Forall (λ trip, is_Some (trip !! "trip_id") ∧ is_Some (trip !! "shape_id")) before ∧
        ((trip !! "trip_id" = None ∧ e = KeyError "trip_id") ∨
         (is_Some (trip !! "trip_id") ∧ trip !! "shape_id" = None ∧
          e = KeyError "shape_id"))
  end.
Proof.
  revert acc r. induction trips as [|trip trips IH]; intros acc r; simpl.
  - intros <-. constructor.
  - rewrite map_trip_run.
    destruct (trip !! "trip_id") as [k|] eqn:Hk;
      [destruct (trip !! "shape_id") as [v|] eqn:Hv|]; simpl.
    + intros Hr. specialize (IH _ _ Hr). destruct r as [m|e].
      * constructor; [|done]. split; by eexists.
      * destruct IH as (before & bad & after & -> & Hbefore & Hbad).
        exists (trip :: before), bad, after. split_and!; [done| |done].
        constructor; [|done]. split; by eexists.
    + intros <-. exists [], trip, trips. split_and!; [done|constructor|].
      right. split_and!; [by eexists|done..].
    + intros <-. exists [], trip, trips. split_and!; [done|constructor|].
      by left.
Qed.

Lemma for_each_map_trip_lookup trips acc m trip_id :
  for_each map_trip trips acc = Ok m →
  Forall (λ trip, trip !! "trip_id" ≠ Some trip_id) trips →
  m !! trip_id = acc !! trip_id.
Proof.
  revert acc. induction trips as [|trip trips IH]; intros acc; simpl.
  - by intros ?; simplify_eq.
  - rewrite map_trip_run. intros Hrun Hall.
    apply Forall_cons in Hall as [Hne Hall].
    destruct (trip !! "trip_id") as [k|]; [|done].
    destruct (trip !! "shape_id") as [v|]; [|done]. simpl in Hrun.
    rewrite (IH _ Hrun Hall). apply lookup_insert_ne. by intros ->.
Qed.

(** X10: the trip map is built exactly when every row of [trips.txt] has
    the columns [trip_id] and [shape_id], whatever their cells hold: the
    cell of a line that stopped before the column is [None], and is mapped
    like any other. Otherwise the first row that lacks a column decides the
    [KeyError], [trip_id] being looked up first. *)
Theorem build_trip_shape_map_needs_both_keys (trips : list row) :
  let complete (trip : row) :=
    is_Some (trip !! "trip_id") ∧ is_Some (trip !! "shape_id") in
  ((∃ m, build_trip_shape_map trips = Ok m) ↔ Forall complete trips) ∧
  (∀ e, build_trip_shape_map trips = Raise e →
     ∃ before trip after, trips = (before ++ trip :: after)%list ∧
       Forall complete before ∧
       ((trip !! "trip_id" = None ∧ e = KeyError "trip_id") ∨
        (is_Some (trip !! "trip_id") ∧ trip !! "shape_id" = None ∧
         e = KeyError "shape_id"))).
Proof.
  intros complete. rewrite build_trip_shape_map_unfold. split; [split|].
  - intros [m Hm]. exact (for_each_map_trip_inv _ _ _ Hm).
  - apply for_each_map_trip_ok.
  - intros e He. exact (for_each_map_trip_inv _ _ _ He).
Qed.

(** X11: in the trip map a trip has the shape of the last row of
    [trips.txt] that names it, and a trip is mapped only if some row names
    it with that shape. *)
Theorem trip_shape_map_last_row_wins
    (trips : list row) (m : gmap (option string) (option string)) :
  build_trip_shape_map trips = Ok m →
  (∀ before trip after trip_id shape_id,
     trips = (before ++ trip :: after)%list →
     trip !! "trip_id" = Some trip_id →
     trip !! "shape_id" = Some shape_id →
     Forall (λ later, later !! "trip_id" ≠ Some trip_id) after →
     m !! trip_id = Some shape_id) ∧
  (∀ trip_id shape_id,
     m !! trip_id = Some shape_id →
     ∃ trip, trip ∈ trips ∧ trip !! "trip_id" = Some trip_id ∧
             trip !! "shape_id" = Some shape_id).
Proof.
  rewrite build_trip_shape_map_unfold. intros Hm. split.
  - intros before trip after trip_id shape_id -> Hk Hv Hafter.
    rewrite for_each_app in Hm.
    destruct (for_each map_trip before ∅) as [acc|]; [|done]. simpl in Hm.
    rewrite map_trip_run, Hk, Hv in Hm. simpl in Hm.
    rewrite (for_each_map_trip_lookup _ _ _ _ Hm Hafter).
    apply lookup_insert_eq.
  - assert (Hgen : ∀ acc, for_each map_trip trips acc = Ok m →
              ∀ trip_id shape_id, m !! trip_id = Some shape_id →
                acc !! trip_id = Some shape_id ∨
                ∃ trip, trip ∈ trips ∧ trip !! "trip_id" = Some trip_id ∧
                        trip !! "shape_id" = Some shape_id).
    { clear Hm. induction trips as [|trip trips IH]; intros acc; simpl.
      - intros ? trip_id shape_id Hl; simplify_eq. by left.
      - rewrite map_trip_run. intros Hrun trip_id shape_id Hl.
        destruct (trip !! "trip_id") as [k|] eqn:Hk; [|done].
        destruct (trip !! "shape_id") as [v|] eqn:Hv; [|done]. simpl in Hrun.
        destruct (IH _ Hrun _ _ Hl) as [Hacc|(trip' & Hin & Hk' & Hv')].
        + rewrite lookup_insert in Hacc. case_decide; simplify_eq.
          * right. exists trip. split_and!; [left|done..].
          * by left.
        + right. exists trip'. split_and!; [by right|done..]. }
    intros trip_id shape_id Hl.
    destruct (Hgen ∅ Hm _ _ Hl) as [Hempty|Hrow]; [|done].
    by rewrite lookup_empty in Hempty.
Qed.

End TripMap.

Lemma build_trip_shape_map_needs_both_keys_witness :
  let no_shape_column (trip_id : string) : row :=
    <["route_id" := Some "16"]> {["trip_id" := Some trip_id]} in
  let short_line (trip_id : string) : row :=
    <["route_id" := Some "16"]> (<["trip_id" := Some trip_id]> {["shape_id" := None]}) in
  build_trip_shape_map [no_shape_column "t1"; no_shape_column "t2"]
  = Raise (KeyError "shape_id") ∧
  ∃ m, build_trip_shape_map [Sample.trip_row "t1" "s1"; short_line "t2"] = Ok m ∧
       m !! Some "t2" = Some None.
Proof.
  intros no_shape_column short_line. split.
  - destruct (build_trip_shape_map [no_shape_column "t1"; no_shape_column "t2"])
      as [m|e] eqn:Hb; [vm_compute in Hb; discriminate Hb|].
    destruct (proj2 (build_trip_shape_map_needs_both_keys
                       [no_shape_column "t1"; no_shape_column "t2"]) e Hb)
      as (before & trip & after & Hrows & _ & [[Hid _]|(_ & _ & ->)]); [|done].
    exfalso. clear Hb.
    assert (Hin : trip ∈ [no_shape_column "t1"; no_shape_column "t2"])
      by (rewrite Hrows; apply elem_of_app; right; left).
    apply elem_of_cons in Hin as [->|Hin]; [vm_compute in Hid; discriminate Hid|].
    apply elem_of_cons in Hin as [->|Hin]; [vm_compute in Hid; discriminate Hid|].
    by apply elem_of_nil in Hin.
  - destruct (proj2 (proj1 (build_trip_shape_map_needs_both_keys
                              [Sample.trip_row "t1" "s1"; short_line "t2"])))
      as [m Hm].
    + repeat constructor; by eexists.
    + exists m. split; [exact Hm|].
      vm_compute in Hm. injection Hm as <-. vm_compute. reflexivity.
Defined.

Lemma trip_shape_map_last_row_wins_witness :
  ∃ m, build_trip_shape_map [Sample.trip_row "t1" "s1"; Sample.trip_row "t1" "s2"] = Ok m ∧
       m !! Some "t1" = Some (Some "s2").
Proof.
  exists {[Some "t1" := Some "s2"]}.
  assert (Hb : build_trip_shape_map [Sample.trip_row "t1" "s1"; Sample.trip_row "t1" "s2"]
               = Ok {[Some "t1" := Some "s2"]}) by (vm_compute; reflexivity).
  split; [exact Hb|].
  apply (proj1 (trip_shape_map_last_row_wins _ _ Hb)
           [Sample.trip_row "t1" "s1"] (Sample.trip_row "t1" "s2") []
           (Some "t1") (Some "s2"));
    [reflexivity|reflexivity|reflexivity|constructor].
Defined.
(** * Further properties of the shape index *)

Section ShapeIndex.
Context `{Libraries}.

(** What one turn of the grouping loop does with a row. *)
Lemma group_shape_row_cases (acc : gmap (option string) (list ShapePoint)) (r : row) :
  (∃ sid pt,
     r !! "shape_id" = Some sid ∧ row_point r = Some pt ∧
     group_shape_row acc r =
     Ok (alter (λ pts, (pts ++ [pt])%list) sid
           (if decide (is_Some (acc !! sid)) then acc else <[sid := []]> acc))) ∨
  ((r !! "shape_id" = None ∨ row_point r = None) ∧
   ∃ e, group_shape_row acc r = Raise e ∧ row_raises r e).
Proof.
  unfold group_shape_row, row_point, cell, getitem, py_float, py_int.
  destruct (r !! "shape_id") as [sid|] eqn:Hsid; simpl.
  2: { right. split; [by left|]. eexists. split; [done|].
       apply (column_missing _ "shape_id"); [by repeat constructor|done]. }
  destruct (r !! "shape_pt_lat") as [[s_lat|]|] eqn:Hlat; simpl.
  2: { right. split; [by right|]. eexists. split; [done|].
       apply (cell_missing _ "shape_pt_lat"); [by repeat constructor|done]. }
  2: { right. split; [by right|]. eexists. split; [done|].
       apply (column_missing _ "shape_pt_lat"); [by repeat constructor|done]. }
  destruct (float_of_str s_lat) as [v_lat|] eqn:Hv_lat; simpl.
  2: { right. split; [by right|]. eexists. split; [done|].
       apply (float_malformed _ "shape_pt_lat"); [by repeat constructor|done..]. }
  destruct (r !! "shape_pt_lon") as [[s_lon|]|] eqn:Hlon; simpl.
  2: { right. split; [by right|]. eexists. split; [done|].
       apply (cell_missing _ "shape_pt_lon"); [by repeat constructor|done]. }
  2: { right. split; [by right|]. eexists. split; [done|].
       apply (column_missing _ "shape_pt_lon"); [by repeat constructor|done]. }
  destruct (float_of_str s_lon) as [v_lon|] eqn:Hv_lon; simpl.
  2: { right. split; [by right|]. eexists. split; [done|].
       apply (float_malformed _ "shape_pt_lon"); [by repeat constructor|done..]. }
  destruct (r !! "shape_pt_sequence") as [[s_seq|]|] eqn:Hseq; simpl.
  2: { right. split; [by right|]. eexists. split; [done|].
       apply (cell_missing _ "shape_pt_sequence"); [by repeat constructor|done]. }
  2: { right. split; [by right|]. eexists. split; [done|].
       apply (column_missing _ "shape_pt_sequence"); [by repeat constructor|done]. }
  destruct (int_of_str s_seq) as [v_seq|] eqn:Hv_seq; simpl.
  2: { right. split; [by right|]. eexists. split; [done|]. by eapply int_malformed. }
  left. by eexists _, _.
Qed.

Lemma for_each_group_rows rows acc grouped :
  for_each group_shape_row rows acc = Ok grouped →
  Forall (λ r, is_Some (r !! "shape_id") ∧ is_Some (row_point r)) rows.
Proof.
  revert acc. induction rows as [|r rows IH]; intros acc; simpl; [constructor|].
  destruct (group_shape_row_cases acc r)
    as [(sid & pt & Hsid & Hpt & ->)|(_ & e & -> & _)]; simpl; [|done].
  intros Hrest. constructor; [|by eapply IH]. split; by eexists.
Qed.

Lemma for_each_group_ok rows acc :
  Forall (λ r, is_Some (r !! "shape_id") ∧ is_Some (row_point r)) rows →
  ∃ grouped, for_each group_shape_row rows acc = Ok grouped.
Proof.
  intros Hall. revert acc.
  induction Hall as [|r rows [[sid Hsid] [pt Hpt]] _ IH]; intros acc; simpl;
    [by eexists|].
  destruct (group_shape_row_cases acc r)
    as [(? & ? & _ & _ & ->)|([Hno|Hno] & _)]; simpl; [apply IH|congruence..].
Qed.

(** The loop raises what its first incomplete row raises. *)
Lemma for_each_group_raise rows acc e :
  for_each group_shape_row rows acc = Raise e →
  ∃ before r after, rows = (before ++ r :: after)%list ∧
    Forall (λ r, is_Some (r !! "shape_id") ∧ is_Some (row_point r)) before ∧
    (r !! "shape_id" = None ∨ row_point r = None) ∧
    row_raises r e.
Proof.
  revert acc. induction rows as [|r rows IH]; intros acc; simpl; [done|].
  destruct (group_shape_row_cases acc r)
    as [(sid & pt & Hsid & Hpt & ->)|(Hno & e' & -> & He')]; simpl.
  - intros (before & bad & after & -> & Hbefore & Hno & Hbad)%IH.
    exists (r :: before), bad, after. split_and!; [done| |done..].
    constructor; [|done]. split; by eexists.
  - intros [= <-]. exists [], r, rows. by split_and!.
Qed.

(** The lists of the grouping loop: the points of the rows of each shape,
    in file order, after what the accumulator held. *)
Lemma for_each_group_lookup rows acc grouped sid :
  for_each group_shape_row rows acc = Ok grouped →
  grouped !! sid =
  if decide (rows_of_shape sid rows = []) then acc !! sid
  else Some (default [] (acc !! sid) ++ omap row_point (rows_of_shape sid rows))%list.
Proof.
  revert acc. induction rows as [|row rows IH]; intros acc; simpl.
  - intros [= <-]. done.
  - destruct (group_shape_row_cases acc row)
      as [(s & pt & Hs & Hpt & ->)|(_ & e & -> & _)]; simpl; [|done].
    intros Hrest. rewrite (IH _ Hrest). clear IH Hrest.
    unfold rows_of_shape.
    destruct (decide (s = sid)) as [->|Hne].
    + rewrite filter_cons_True by exact Hs. simpl. rewrite Hpt.
      rewrite lookup_alter_eq.
      assert (Hinner : (if decide (is_Some (acc !! sid)) then acc
                        else <[sid := []]> acc) !! sid
                       = Some (default [] (acc !! sid))).
      { case_decide as Hsome.
        - destruct Hsome as [l Hl]. by rewrite Hl.
        - rewrite lookup_insert_eq.
          destruct (acc !! sid) eqn:Hacc; [|done]. exfalso. apply Hsome. by eexists. }
      rewrite Hinner. clear Hinner. simpl.
      case_decide as Hnil.
      * by rewrite Hnil.
      * by rewrite <- app_assoc.
    + rewrite filter_cons_False by (rewrite Hs; congruence).
      rewrite lookup_alter_ne by done.
      assert (Hinner : (if decide (is_Some (acc !! s)) then acc
                        else <[s := []]> acc) !! sid = acc !! sid).
      { case_decide; [done|]. by rewrite lookup_insert_ne. }
      by rewrite Hinner.
Qed.

Lemma length_omap_total {A B} (f : A → option B) (l : list A) :
  Forall (λ x, is_Some (f x)) l → length (omap f l) = length l.
Proof.
  induction 1 as [|x l [y Hy] _ IH]; simpl; [done|]. rewrite Hy. simpl. by f_equal.
Qed.

Lemma build_shapes_dict_lookup shapes index sid :
  build_shapes_dict shapes = Ok index →
  index !! sid =
  if decide (rows_of_shape sid shapes = []) then None
  else Some (sort_by_seq (omap row_point (rows_of_shape sid shapes))).
Proof.
  unfold build_shapes_dict.
  destruct (for_each group_shape_row shapes ∅) as [grouped|e] eqn:Hg; [|done].
  simpl. intros [= <-]. rewrite lookup_fmap, (for_each_group_lookup _ _ _ _ Hg).
  case_decide; by rewrite lookup_empty.
Qed.

(** X12: in the shape index a shape is present exactly when some row of
    [shapes.txt] names it, and its list is the sorted list of the points of
    all its rows: as many points as rows. *)
Theorem shape_index_groups_rows
    (shapes : list row) (index : gmap (option string) (list ShapePoint))
    (sid : option string) :
  build_shapes_dict shapes = Ok index →
  index !! sid =
    (if decide (rows_of_shape sid shapes = []) then None
     else Some (sort_by_seq (omap row_point (rows_of_shape sid shapes)))) ∧
  length (default [] (index !! sid)) = length (rows_of_shape sid shapes).
Proof.
  intros Hb. pose proof (build_shapes_dict_lookup _ _ sid Hb) as Hl.
  split; [done|]. rewrite Hl. case_decide as Hnil; simpl.
  - by rewrite Hnil.
  - rewrite (Permutation_length (sort_by_seq_perm _)).
    apply length_omap_total.
    unfold build_shapes_dict in Hb.
    destruct (for_each group_shape_row shapes ∅) as [grouped|e] eqn:Hg; [|done].
    apply for_each_group_rows in Hg.
    unfold rows_of_shape. apply Forall_forall. intros row Hrow.
    apply list_elem_of_filter in Hrow as [_ Hrow].
    rewrite Forall_forall in Hg. by apply Hg.
Qed.

(** X13: the shape index is built exactly when every row of [shapes.txt]
    has the column [shape_id], whatever its cell holds, and three coordinate
    cells that are strings and parse. Otherwise the loader raises what the
    first other row raises: a [KeyError] for a column the header lacks, a
    [TypeError] for a coordinate the line stopped before, a [ValueError] for
    a coordinate that does not parse. *)
Theorem build_shapes_dict_needs_complete_rows (shapes : list row) :
  let complete (r : row) := is_Some (r !! "shape_id") ∧ is_Some (row_point r) in
  ((∃ index, build_shapes_dict shapes = Ok index) ↔ Forall complete shapes) ∧
  (∀ e, build_shapes_dict shapes = Raise e →
     ∃ before r after, shapes = (before ++ r :: after)%list ∧
       Forall complete before ∧ ¬ complete r ∧ row_raises r e) ∧
  (∀ r e, row_raises r e →
     (∃ key, e = KeyError key ∧ r !! key = None) ∨
     (e = TypeError ∧ ∃ key, r !! key = Some None) ∨
     (∃ key s, e = ValueError s ∧ r !! key = Some (Some s))).
Proof.
  intros complete. unfold build_shapes_dict. split_and!; [split|..].
  - intros [index Hb].
    destruct (for_each group_shape_row shapes ∅) as [grouped|e] eqn:Hg; [|done].
    by eapply for_each_group_rows.
  - intros Hall. destruct (for_each_group_ok shapes ∅ Hall) as [grouped ->].
    by eexists.
  - intros e Hb.
    destruct (for_each group_shape_row shapes ∅) as [grouped|e'] eqn:Hg; [done|].
    simpl in Hb. injection Hb as <-.
    destruct (for_each_group_raise _ _ _ Hg)
      as (before & r & after & -> & Hbefore & Hno & Hr).
    exists before, r, after. split_and!; [done..| |done].
    intros [[sid Hsid] [pt Hpt]]. destruct Hno; congruence.
  - intros r e [key _ Hkey|key _ Hkey|key s _ Hkey _|s Hkey _]; eauto 6.
Qed.

Lemma filter_insert_by_seq (k : Z) p l :
  filter (λ q, seq q = k) (insert_by_seq p l) =
  filter (λ q, seq q = k) (p :: l).
Proof.
  induction l as [|q l IH]; simpl; [done|].
  case_bool_decide as Hle; [done|].
  rewrite filter_cons, IH, !filter_cons.
  destruct (decide (seq q = k)), (decide (seq p = k)); try done. lia.
Qed.

Lemma filter_sort_by_seq (k : Z) l :
  filter (λ q, seq q = k) (sort_by_seq l) = filter (λ q, seq q = k) l.
Proof.
  induction l as [|p l IH]; simpl; [done|].
  by rewrite filter_insert_by_seq, !filter_cons, IH.
Qed.

(** X14: the list of a shape in the index holds exactly the points of its
    rows, and points with the same sequence number keep the order of their
    rows in the file. *)
Theorem shape_points_keep_file_order_on_ties
    (shapes : list row) (index : gmap (option string) (list ShapePoint))
    (sid : option string) (pts : list ShapePoint) :
  build_shapes_dict shapes = Ok index →
  index !! sid = Some pts →
  pts ≡ₚ omap row_point (rows_of_shape sid shapes) ∧
  ∀ k : Z, filter (λ p, seq p = k) pts
           = filter (λ p, seq p = k) (omap row_point (rows_of_shape sid shapes)).
Proof.
  intros Hb Hl. rewrite (build_shapes_dict_lookup _ _ sid Hb) in Hl.
  case_decide; [done|]. injection Hl as <-.
  split; [apply sort_by_seq_perm|]. intros k. apply filter_sort_by_seq.
Qed.

End ShapeIndex.

Lemma shape_index_groups_rows_witness :
  let shapes := [Sample.shape_row (Some "s1") "52.25" "16.75" "2";
                 Sample.shape_row (Some "s2") "52.5" "16.5" "1";
                 Sample.shape_row (Some "s1") "52.5" "16.5" "1"] in
  ∃ index, build_shapes_dict (H := Sample.libs) shapes = Ok index ∧
           length (default [] (index !! Some "s1")) = 2%nat ∧
           index !! Some "s3" = None.
Proof.
  intros shapes.
  destruct (build_shapes_dict (H := Sample.libs) shapes) as [index|e] eqn:Hb;
    [|vm_compute in Hb; discriminate Hb].
  exists index. split; [reflexivity|].
  destruct (shape_index_groups_rows (H := Sample.libs) shapes index (Some "s1") Hb)
    as [_ Hlen].
  destruct (shape_index_groups_rows (H := Sample.libs) shapes index (Some "s3") Hb)
    as [Hnone _].
  split; [rewrite Hlen; reflexivity|rewrite Hnone; reflexivity].
Defined.

Lemma build_shapes_dict_needs_complete_rows_witness :
  let stopped_early : row :=
    <["shape_id" := Some "s1"]> (<["shape_pt_lat" := Some "52.5"]>
      (<["shape_pt_lon" := None]> {["shape_pt_sequence" := None]})) in
  let shapes := [Sample.shape_row (Some "s1") "52.25" "16.75" "2"; stopped_early] in
  build_shapes_dict (H := Sample.libs) shapes = Raise TypeError ∧
  ¬ Forall (λ r, is_Some (r !! "shape_id") ∧
                 is_Some (row_point (H := Sample.libs) r)) shapes ∧
  (∃ index, build_shapes_dict (H := Sample.libs)
              [Sample.shape_row None "52.5" "16.5" "1"] = Ok index).
Proof.
  intros stopped_early shapes.
  assert (Hb : build_shapes_dict (H := Sample.libs) shapes = Raise TypeError)
    by (vm_compute; reflexivity).
  split; [exact Hb|]. split.
  - intros Hall.
    apply (proj1 (build_shapes_dict_needs_complete_rows (H := Sample.libs) shapes)) in Hall
      as [index Hok].
    rewrite Hb in Hok. discriminate Hok.
  - apply (proj1 (build_shapes_dict_needs_complete_rows (H := Sample.libs)
                    [Sample.shape_row None "52.5" "16.5" "1"])).
    repeat constructor; eexists; vm_compute; reflexivity.
Defined.

Lemma shape_points_keep_file_order_on_ties_witness :
  let first := {| lat := 52.25; lon := 16.75; seq := 1 |} in
  let second := {| lat := 52.5; lon := 16.5; seq := 1 |} in
  let shapes := [Sample.shape_row (Some "s1") "52.25" "16.75" "1";
                 Sample.shape_row (Some "s1") "52.5" "16.5" "1"] in
  build_shapes_dict (H := Sample.libs) shapes = Ok {[Some "s1" := [first; second]]} ∧
  filter (λ p, seq p = 1) [first; second]
  = filter (λ p, seq p = 1)
      (omap (row_point (H := Sample.libs)) (rows_of_shape (Some "s1") shapes)).
Proof.
  intros first second shapes.
  assert (Hb : build_shapes_dict (H := Sample.libs) shapes
               = Ok {[Some "s1" := [first; second]]})
    by (vm_compute; reflexivity).
  split; [exact Hb|].
  apply (shape_points_keep_file_order_on_ties (H := Sample.libs)
           shapes {[Some "s1" := [first; second]]} (Some "s1") [first; second] Hb).
  apply lookup_singleton_eq.
Defined.
(** * Further properties of the fusion loop *)

Section Records.
Context `{Libraries}.

Lemma traverse_shape_point_dict_ok pts :
  (∃ dicts, traverse shape_point_dict pts = Ok dicts) ↔ representable pts.
Proof.
  unfold representable. induction pts as [|p pts IH]; simpl.
  - split; [constructor|by eexists].
  - rewrite Forall_cons, <- IH. unfold shape_point_dict at 1.
    destruct (float_of_int (seq p)) as [v|]; simpl.
    + split.
      * intros [dicts Hd]. split; [by eexists|].
        destruct (traverse shape_point_dict pts); [by eexists|done].
      * intros [_ [dicts ->]]. by eexists.
    + split; [by intros [? ?]|]. by intros [[? ?] _].
Qed.

Lemma fuse_vehicle_returns ds vehicle :
  (∃ record, fuse_vehicle ds vehicle = Ok record) ↔ representable (points_of ds vehicle).
Proof.
  rewrite <- traverse_shape_point_dict_ok. unfold points_of, shape_key. split.
  - intros [record (dicts & Hd & _)%fuse_vehicle_ok]. by eexists.
  - intros [dicts Hd]. eexists. apply fuse_vehicle_ok. by eexists.
Qed.

(** X15: when the fusion loop returns, it yields exactly one record per
    entity that carries a vehicle, in feed order; each record copies the
    identifiers and the position of its entity and looks the delay and the
    shape id up by trip. The loop returns exactly when the shape of every
    vehicle has sequence numbers that all have a float; otherwise the
    validation of a record raises. *)
Theorem fused_records_follow_vehicle_entities (ds : GTFSDataStore) (feed : FeedMessage.t) :
  let vehicles := omap FeedEntity.vehicle (FeedMessage.entity feed) in
  (∀ records, process_vehicles ds feed = Ok records →
     length records = length vehicles ∧
     ∀ (i : nat) (record : VehicleData),
       records !! i = Some record →
       ∃ vehicle : VehiclePosition.t,
         vehicles !! i = Some vehicle ∧
         let trip := VehiclePosition.trip vehicle in
         vehicle_id record = VehicleDescriptor.id (VehiclePosition.vehicle vehicle) ∧
         route_id record = TripDescriptor.route_id trip ∧
         trip_id record = TripDescriptor.trip_id trip ∧
         position record = VehiclePosition.position vehicle ∧
         delay_seconds record = trip_delays ds !! TripDescriptor.trip_id trip ∧
         shape_id record = shape_key ds vehicle) ∧
  ((∃ records, process_vehicles ds feed = Ok records) ↔
   Forall (λ vehicle, representable (points_of ds vehicle)) vehicles) ∧
  (∀ e, process_vehicles ds feed = Raise e →
     e = ValidationError ∧
     ∃ vehicle, vehicle ∈ vehicles ∧ ¬ representable (points_of ds vehicle)).
Proof.
  intros vehicles. split_and!.
  - intros records Hrecords. split; [by eapply process_vehicles_length|].
    intros i record Hi. rewrite process_vehicles_spec in Hrecords.
    apply traverse_Ok in Hrecords.
    destruct (Forall2_lookup_r _ _ _ _ _ Hrecords Hi) as (vehicle & Hv & Hfuse).
    exists vehicle. split; [done|].
    apply fuse_vehicle_ok in Hfuse as (dicts & _ & ->). simpl.
    split_and!; try done. by destruct (VehiclePosition.position vehicle).
  - rewrite process_vehicles_spec. fold vehicles. split.
    + intros [records Hrecords%traverse_Ok].
      apply Forall_forall. intros vehicle Hin.
      apply list_elem_of_lookup in Hin as [i Hi].
      destruct (Forall2_lookup_l _ _ _ _ _ Hrecords Hi) as (record & _ & Hfuse).
      apply fuse_vehicle_returns. by eexists.
    + intros Hall. induction Hall as [|vehicle l Hv _ [records IH]]; simpl.
      * by eexists.
      * apply fuse_vehicle_returns in Hv as [record ->]. simpl. rewrite IH. by eexists.
  - intros e He. pose proof (process_vehicles_raise _ _ _ He) as [-> _].
    split; [done|]. rewrite process_vehicles_spec in He. fold vehicles in He.
    apply traverse_Raise in He as (l1 & vehicle & l2 & Hl & _ & Hv).
    exists vehicle. split; [rewrite Hl; apply elem_of_app; right; left|].
    intros [record Hrecord]%fuse_vehicle_returns. congruence.
Qed.

(** X16: a record with shape points carries the key of a list of the shape
    index, and its points are those of that list, one dict per point in the
    order of the index, with the keys [lat], [lon] and [seq]. The key is the
    id of a shape or, for the points of the lines of [shapes.txt] that
    stopped before their [shape_id], [None]. *)
Theorem shape_points_belong_to_shape
    (ds : GTFSDataStore) (feed : FeedMessage.t) (records : list VehicleData)
    (record : VehicleData) :
  process_vehicles ds feed = Ok records →
  record ∈ records →
  shape_points record ≠ [] →
  ∃ pts : list ShapePoint,
    shapes_dict ds !! shape_id record = Some pts ∧
    length (shape_points record) = length pts ∧
    ∀ (j : nat) (p : ShapePoint),
      pts !! j = Some p →
      ∃ (d : gmap string float) (v_seq : float),
        shape_points record !! j = Some d ∧
        float_of_int (seq p) = Some v_seq ∧
        d = <["lat" := lat p]> (<["lon" := lon p]> {["seq" := v_seq]}).
Proof.
  rewrite process_vehicles_spec. intros Hrecords%traverse_Ok Hin.
  apply list_elem_of_lookup in Hin as [i Hi].
  destruct (Forall2_lookup_r _ _ _ _ _ Hrecords Hi) as (vehicle & _ & Hfuse).
  apply fuse_vehicle_ok in Hfuse as (dicts & Hdicts & ->). simpl.
  unfold dict_get at 1 in Hdicts.
  destruct (shapes_dict ds !! _) as [pts|] eqn:Hpts; simpl in Hdicts.
  2: { injection Hdicts as <-. done. }
  intros _. exists pts. apply traverse_Ok in Hdicts.
  split_and!; [done|symmetry; by eapply Forall2_length|].
  intros j p Hj.
  destruct (Forall2_lookup_l _ _ _ _ _ Hdicts Hj) as (d & Hd & Hp).
  unfold shape_point_dict in Hp.
  destruct (float_of_int (seq p)) as [v_seq|]; [|done].
  exists d, v_seq. split_and!; [done|done|congruence].
Qed.

(** X19: a vehicle on a trip the trip map does not list is fused into a
    record with no shape id; the record has no shape points provided the
    shape index holds no list under [None], that is no line of [shapes.txt]
    stopped before its [shape_id]. *)
Theorem unmapped_trip_without_short_line
    (ds : GTFSDataStore) (vehicle : VehiclePosition.t) :
  trip_shape_map ds !! Some (TripDescriptor.trip_id (VehiclePosition.trip vehicle)) = None →
  (∀ record, fuse_vehicle ds vehicle = Ok record → shape_id record = None) ∧
  (shapes_dict ds !! None = None →
     ∃ record, fuse_vehicle ds vehicle = Ok record ∧
               shape_id record = None ∧ shape_points record = []) ∧
  (∀ shapes, build_shapes_dict shapes = Ok (shapes_dict ds) →
     Forall (λ r, r !! "shape_id" ≠ Some None) shapes →
     shapes_dict ds !! None = None).
Proof.
  intros Hmap. split_and!.
  - intros record (dicts & _ & ->)%fuse_vehicle_ok. simpl.
    unfold dict_get. by rewrite Hmap.
  - by apply fuse_vehicle_unmapped.
  - intros shapes Hb Hall. rewrite (build_shapes_dict_lookup _ _ None Hb).
    rewrite decide_True; [done|]. unfold rows_of_shape. clear Hb.
    induction Hall as [|r rows Hr _ IH]; [done|].
    rewrite filter_cons_False by done. exact IH.
Qed.

End Records.

Lemma shape_points_belong_to_shape_witness :
  let p := {| lat := 52.5; lon := 16.5; seq := 1 |} in
  let q := {| lat := 52.25; lon := 16.75; seq := 2 |} in
  let ds := with_shapes_dict {[None := [p]; Some "s1" := [p; q]]}
              (with_trip_shape_map {[Some "t1" := Some "s1"]} data_store_init) in
  let feed := {| FeedMessage.entity :=
                   [Sample.vehicle_entity Sample.bus; Sample.vehicle_entity Sample.tram] |} in
  ∃ (of_bus of_tram : VehicleData),
    process_vehicles (H := Sample.libs) ds feed = Ok [of_bus; of_tram] ∧
    shape_id of_bus = None ∧
    length (shape_points of_bus) = 1%nat ∧
    shape_id of_tram = Some "s1" ∧
    length (shape_points of_tram) = 2%nat.
Proof.
  intros p q ds feed.
  assert (Hrun : ∃ of_bus of_tram,
            process_vehicles (H := Sample.libs) ds feed = Ok [of_bus; of_tram] ∧
            shape_id of_bus = None ∧ shape_points of_bus ≠ [] ∧
            shape_id of_tram = Some "s1" ∧ shape_points of_tram ≠ []).
  { eexists _, _. split; [vm_compute; reflexivity|]. by split_and!. }
  destruct Hrun as (of_bus & of_tram & Hrun & Hbus & Hbus_points & Htram & Htram_points).
  exists of_bus, of_tram. split; [exact Hrun|].
  destruct (shape_points_belong_to_shape (H := Sample.libs) ds feed _ of_bus Hrun)
    as (pts_bus & Hpts_bus & Hlen_bus & _); [left|exact Hbus_points|].
  destruct (shape_points_belong_to_shape (H := Sample.libs) ds feed _ of_tram Hrun)
    as (pts_tram & Hpts_tram & Hlen_tram & _); [right; left|exact Htram_points|].
  rewrite Hbus in Hpts_bus. rewrite Htram in Hpts_tram.
  vm_compute in Hpts_bus. injection Hpts_bus as <-.
  vm_compute in Hpts_tram. injection Hpts_tram as <-.
  split_and!; [exact Hbus|exact Hlen_bus|exact Htram|exact Hlen_tram].
Defined.

Lemma fused_records_follow_vehicle_entities_witness :
  let p := {| lat := 52.5; lon := 16.5; seq := 1 |} in
  let far := {| lat := 52.25; lon := 16.75; seq := 10 ^ 400 |} in
  let ds := with_trip_delays {["t1" := 42]}
              (with_trip_shape_map {[Some "t1" := Some "s1"; Some "t9" := Some "s2"]}
                 (with_shapes_dict {[Some "s1" := [p]; Some "s2" := [far]]}
                    data_store_init)) in
  let feed := {| FeedMessage.entity :=
                   [Sample.departure_only "t1" 42; Sample.vehicle_entity Sample.tram] |} in
  let longer := {| FeedMessage.entity :=
                     [Sample.vehicle_entity Sample.tram; Sample.vehicle_entity Sample.bus] |} in
  (∃ record, process_vehicles (H := Sample.libs) ds feed = Ok [record] ∧
             vehicle_id record = "v1" ∧ delay_seconds record = Some 42 ∧
             shape_id record = Some "s1") ∧
  process_vehicles (H := Sample.libs) ds longer = Raise ValidationError.
Proof.
  intros p far ds feed longer.
  destruct (fused_records_follow_vehicle_entities (H := Sample.libs) ds feed)
    as (Hrecords & _ & _).
  destruct (fused_records_follow_vehicle_entities (H := Sample.libs) ds longer)
    as (_ & _ & Hraise).
  split.
  - assert (Hrun : ∃ record, process_vehicles (H := Sample.libs) ds feed = Ok [record])
      by (eexists; vm_compute; reflexivity).
    destruct Hrun as [record Hrun]. exists record. split; [exact Hrun|].
    destruct (Hrecords _ Hrun) as [_ Hfields].
    destruct (Hfields 0%nat record eq_refl)
      as (vehicle & Hvehicle & Hid & _ & _ & _ & Hdelay & Hshape).
    cbn in Hvehicle. injection Hvehicle as <-.
    split_and!; [exact Hid|exact Hdelay|exact Hshape].
  - destruct (process_vehicles (H := Sample.libs) ds longer) as [records|e] eqn:Hrun;
      [vm_compute in Hrun; discriminate Hrun|].
    f_equal. exact (proj1 (Hraise e eq_refl)).
Defined.

Lemma unmapped_trip_without_short_line_witness :
  let w := Sample.empty_cache 1000
             (Sample.serve Sample.two_vehicle_pb Sample.one_delay_pb Sample.good_zip) in
  let out := fetch_and_process_data (H := Sample.libs) (start w data_store_init) in
  out.1 = Ok tt ∧
  ∃ record, fuse_vehicle (H := Sample.libs) (store out.2) Sample.bus = Ok record ∧
            shape_id record = None ∧ shape_points record = [].
Proof.
  intros w out. split; [vm_compute; reflexivity|].
  destruct (unmapped_trip_without_short_line (H := Sample.libs) (store out.2) Sample.bus)
    as (_ & Hrecord & _); [vm_compute; reflexivity|].
  apply Hrecord. vm_compute. reflexivity.
Defined.
(** * Further properties of the extraction *)

Lemma os_path_join_inj dir name1 name2 :
  os_path_join dir name1 = os_path_join dir name2 → name1 = name2.
Proof.
  unfold os_path_join. intros Heq.
  apply (inj (String.app dir)) in Heq. by apply (inj (String.app "/")) in Heq.
Qed.

Section Extraction.
Context `{Libraries}.

Lemma write_members_cons dir name data members st :
  write_members dir ((name, data) :: members) st =
  write_members dir members (on_world (world_write (os_path_join dir name) data) st).
Proof. reflexivity. Qed.

Lemma write_members_returns dir members st :
  (write_members dir members st).1 = Ok tt ∧
  now (world (write_members dir members st).2) = now (world st).
Proof.
  revert st. induction members as [|[name data] members IH]; intros st; [done|].
  rewrite write_members_cons. destruct (IH (on_world (world_write
    (os_path_join dir name) data) st)) as [-> ->]. done.
Qed.

Lemma write_members_skips dir members name st :
  name ∉ members.*1 →
  fs (world (write_members dir members st).2) !! os_path_join dir name
  = fs (world st) !! os_path_join dir name.
Proof.
  revert st. induction members as [|[name' data] members IH]; intros st Hname; [done|].
  rewrite write_members_cons. simpl in Hname.
  apply not_elem_of_cons in Hname as [Hne Hname].
  rewrite IH by done. simpl. apply lookup_insert_ne.
  intros Heq%os_path_join_inj. done.
Qed.

Lemma write_members_last dir before name data after st :
  name ∉ after.*1 →
  fs (world (write_members dir (before ++ (name, data) :: after) st).2)
    !! os_path_join dir name
  = Some {| content := data; mtime := now (world st) |}.
Proof.
  intros Hname. revert st.
  induction before as [|[name' data'] before IH]; intros st; simpl app.
  - rewrite write_members_cons, write_members_skips by done.
    simpl. apply lookup_insert_eq.
  - rewrite write_members_cons, IH. done.
Qed.

(** X17: when the extraction returns, the cached archive is still there
    and every member of the archive is a file of [GTFS_DIR], stamped with
    the time of the run, the last member of a name winning; [load_csv_dict]
    then reads that table from the bytes of that member. *)
Theorem extracted_members_are_read_back (st st' : State) :
  extract_gtfs_zip st = (Ok tt, st') →
  ∃ (archive : File) (members : list (string * bytes)),
    fs (world st) !! GTFS_ZIP_FILE = Some archive ∧
    zip_extractall (content archive) = (members, ExtractedAll) ∧
    fs (world st') !! GTFS_ZIP_FILE = Some archive ∧
    ∀ before name data after,
      members = (before ++ (name, data) :: after)%list →
      name ∉ after.*1 →
      fs (world st') !! os_path_join GTFS_DIR name
      = Some {| content := data; mtime := now (world st) |} ∧
      load_csv_dict (os_path_join GTFS_DIR name) st' =
      (match csv_DictReader data with
       | Some rows => Ok rows
       | None => Raise (HTTPException 500 (CsvLoadError (os_path_join GTFS_DIR name)))
       end, st').
Proof.
  unfold extract_gtfs_zip.
  intros [([] & Hinner & _)|(e & st1 & Hinner & Hh)]%try_except_inv.
  2: { destruct e; unfold bind, os_remove, modify_world, raise in Hh; simplify_eq. }
  apply bind_inv in Hinner as [(data & st1 & Hread & Hinner)|(e & _ & ?)]; [|done].
  rewrite read_file_run in Hread.
  destruct (fs (world st) !! GTFS_ZIP_FILE) as [archive|] eqn:Harchive; [|done].
  simplify_eq.
  destruct (zip_extractall (content archive)) as [members how] eqn:Hzip.
  pose proof (write_members_returns GTFS_DIR members st1) as [Hok Hnow].
  pose proof (preserves_run (same_file GTFS_ZIP_FILE) _ st1 _ _
                (write_members_same_zip members) (surjective_pairing _)) as Hkept.
  unfold bind in Hinner.
  destruct (write_members GTFS_DIR members st1) as [r st2] eqn:Hwrite.
  simpl in Hok, Hnow, Hkept. subst r.
  destruct how; cbv [ret raise] in Hinner; [|discriminate Hinner..].
  injection Hinner as ->.
  exists archive, members. split_and!; [done|done|by rewrite Hkept|].
  intros before name data after -> Hname.
  assert (Hfile : fs (world st') !! os_path_join GTFS_DIR name
                  = Some {| content := data; mtime := now (world st1) |}).
  { pose proof (write_members_last GTFS_DIR before name data after st1 Hname) as Hlast.
    by rewrite Hwrite in Hlast. }
  split; [done|]. rewrite load_csv_dict_run, Hfile. simpl.
  by destruct (csv_DictReader data).
Qed.

End Extraction.

Lemma extracted_members_are_read_back_witness :
  let w := {| fs := {[GTFS_ZIP_FILE := {| content := Sample.good_zip; mtime := 990 |}]};
              now := 1000; net := Sample.offline; requests_log := [] |} in
  let out := extract_gtfs_zip (H := Sample.libs) (start w data_store_init) in
  out.1 = Ok tt ∧
  (load_csv_dict (H := Sample.libs) (os_path_join GTFS_DIR "trips.txt") out.2).1
  = Ok [Sample.trip_row "t1" "s1"].
Proof.
  intros w out.
  assert (Hok : out.1 = Ok tt) by (vm_compute; reflexivity).
  split; [exact Hok|].
  assert (Hrun : extract_gtfs_zip (H := Sample.libs) (start w data_store_init)
                 = (Ok tt, out.2))
    by (rewrite <- Hok; apply surjective_pairing).
  destruct (extracted_members_are_read_back (H := Sample.libs) _ _ Hrun)
    as (archive & members & Harchive & Hzip & _ & Hmembers).
  vm_compute in Harchive. injection Harchive as <-.
  vm_compute in Hzip. injection Hzip as <-.
  destruct (Hmembers [("shapes.txt", Sample.shapes_txt)] "trips.txt" Sample.trips_txt [])
    as [_ Hload]; [reflexivity|apply not_elem_of_nil|].
  rewrite Hload. reflexivity.
Defined.
(** * Further properties of the two loaders *)

Section Loaders.
Context `{Libraries}.

(** X18: [load_csv_dict] and [load_feed] never change the state, and they
    tell a missing file from one that cannot be read: the first raises the
    not-found detail, the second the load or parse detail, both as
    [HTTPException] 500. *)
Theorem loaders_tell_missing_from_unreadable (filepath : string) (st : State) :
  (load_csv_dict filepath st).2 = st ∧
  (load_feed filepath st).2 = st ∧
  (fs (world st) !! filepath = None →
     (load_csv_dict filepath st).1 = Raise (HTTPException 500 (CsvNotFound filepath)) ∧
     (load_feed filepath st).1 = Raise (HTTPException 500 (FeedNotFound filepath))) ∧
  (∀ f, fs (world st) !! filepath = Some f →
     (csv_DictReader (content f) = None →
        (load_csv_dict filepath st).1
        = Raise (HTTPException 500 (CsvLoadError filepath))) ∧
     (ParseFromString (content f) = None →
        (load_feed filepath st).1
        = Raise (HTTPException 500 (FeedParseError filepath))) ∧
     (∀ rows, csv_DictReader (content f) = Some rows →
        (load_csv_dict filepath st).1 = Ok rows) ∧
     (∀ feed, ParseFromString (content f) = Some feed →
        (load_feed filepath st).1 = Ok feed)).
Proof.
  split_and!.
  - apply load_csv_dict_unchanged.
  - apply load_feed_unchanged.
  - intros Hnone. by rewrite load_csv_dict_run, load_feed_run, Hnone.
  - intros f Hf. rewrite load_csv_dict_run, load_feed_run, Hf.
    split_and!; intros; by simplify_option_eq.
Qed.

End Loaders.

Lemma loaders_tell_missing_from_unreadable_witness :
  let w := {| fs := {[TRIP_UPDATES_FILE := {| content := Sample.garbage; mtime := 990 |}]};
              now := 1000; net := Sample.offline; requests_log := [] |} in
  let st := start w data_store_init in
  (load_feed (H := Sample.libs) VEHICLE_POSITIONS_FILE st).1
  = Raise (HTTPException 500 (FeedNotFound VEHICLE_POSITIONS_FILE)) ∧
  (load_feed (H := Sample.libs) TRIP_UPDATES_FILE st).1
  = Raise (HTTPException 500 (FeedParseError TRIP_UPDATES_FILE)).
Proof.
  intros w st. split.
  - destruct (loaders_tell_missing_from_unreadable (H := Sample.libs)
                VEHICLE_POSITIONS_FILE st) as (_ & _ & Hmissing & _).
    apply Hmissing. reflexivity.
  - destruct (loaders_tell_missing_from_unreadable (H := Sample.libs)
                TRIP_UPDATES_FILE st) as (_ & _ & _ & Hpresent).
    destruct (Hpresent {| content := Sample.garbage; mtime := 990 |} eq_refl)
      as (_ & Hbad & _).
    apply Hbad. reflexivity.
Defined.
